(** * The active-learning notebook [notebooks/compatibility/pytorch_lightning.ipynb]

    A shallow embedding of the notebook's code cells: the [HParams]
    dataclass, the construction of the data module, model and trainer, and
    the [AL_STEPS] loop.  Python objects that are mutated in place (the
    active dataset's labelled flags, the tensors of the model) live in an
    explicit [World]; exceptions are an outcome that keeps the world reached
    when they were raised. *)

From Stdlib Require Import ZArith QArith Lia.
From stdpp Require Import base list strings gmap.

(** ** Hyperparameters (cell 3) *)

(** [@dataclass class HParams]: eight fields with their defaults. *)
Record HParams := mkHParams {
  batch_size : Z;
  data_root : string;
  num_classes : Z;
  learning_rate : Q;
  query_size : Z;
  iterations : Z;
  replicate_in_memory : bool;
  gpus : Z
}.

(** [hparams = HParams()]: every field takes its default.  The literal
    [0.001] is kept as the rational it denotes; nothing computes with it. *)
Definition HParams_default : HParams :=
  {| batch_size := 10%Z;
     data_root := "/tmp";
     num_classes := 10%Z;
     learning_rate := (1 # 1000)%Q;
     query_size := 100%Z;
     iterations := 20%Z;
     replicate_in_memory := true;
     gpus := 1%Z |}.

(** Python values held by a field. *)
Inductive value :=
| VInt (z : Z)
| VStr (s : string)
| VFloat (q : Q)
| VBool (b : bool).

(** [dataclasses.asdict]: a fresh dict, field name to value, in field order. *)
Definition asdict (h : HParams) : list (string * value) :=
  [ ("batch_size", VInt (batch_size h));
    ("data_root", VStr (data_root h));
    ("num_classes", VInt (num_classes h));
    ("learning_rate", VFloat (learning_rate h));
    ("query_size", VInt (query_size h));
    ("iterations", VInt (iterations h));
    ("replicate_in_memory", VBool (replicate_in_memory h));
    ("gpus", VInt (gpus h)) ]%string.

(** [getattr(h, name)] through the dict view. *)
Fixpoint getattr (d : list (string * value)) (name : string) : option value :=
  match d with
  | [] => None
  | (k, v) :: d' => if String.eqb k name then Some v else getattr d' name
  end.

(** [AL_STEPS = 100], a module-level constant of the last cell. *)
Definition AL_STEPS : nat := 100.

(** The fields the configuration is said to hold beside the step budget. *)
Definition listed_beside_budget : list string :=
  ["batch_size"; "learning_rate"; "query_size"; "iterations"; "replicate_in_memory"]%string.

(** Field [name] of [h] is a further field and holds the loop's budget. *)
Definition holds_step_budget (h : HParams) (name : string) : Prop :=
  (name ∉ listed_beside_budget) /\
  getattr (asdict h) name = Some (VInt (Z.of_nat AL_STEPS)).

(** ** Exceptions *)

Inductive exn :=
| IndexError
| ValueError
| AttributeError (name : string)
| TypeError
| RuntimeError (msg : string).

(** ** Services of the frameworks

    The training framework, the network and the heuristic's scoring are
    opaque: they are taken as functions.  Each call receives a number drawn
    from the random source, which stands for everything stochastic in it
    (shuffling, dropout masks, initialisation). *)
Record Externals := mkExternals {
  Tensor : Type;
  Output : Type;
  (** [len(CIFAR10(data_root, train=True, ...))] *)
  cifar10_train_len : nat;
  (** [vgg16(num_classes=...)]: the freshly initialised parameters; the
      construction is taken to succeed, a class count the library refuses
      being outside what is modelled *)
  vgg16_init : nat -> Z -> list Tensor;
  (** the training epochs of [Trainer.fit]: from the seed, [max_epochs], the
      module's saved hyperparameters, the current parameters and the
      labelled items, the parameters reached and the exception that stopped
      it, if any *)
  training_loop : nat -> Z -> list (string * value) -> list Tensor -> list nat ->
                  list Tensor * option exn;
  (** the evaluation of [Trainer.test] on the held-out set *)
  test_loop : nat -> list Tensor -> option exn;
  (** one pool item through [predict_step] (the Monte-Carlo passes set by the
      saved hyperparameters [iterations] and [replicate_in_memory]) *)
  predict_step : nat -> list (string * value) -> list Tensor -> nat -> exn + Output;
  (** the uncertainty [BALD] computes from one item's output *)
  bald_score : Output -> Q
}.

(** ** Concrete services, to run the definitions *)

(** [n] items; tensors are integers, training adds one to each, an item's
    output is a score derived from its position; nothing fails. *)
Definition toy (n : nat) : Externals :=
  {| Tensor := Z;
     Output := Q;
     cifar10_train_len := n;
     vgg16_init := fun _ _ => [0%Z; 0%Z];
     training_loop := fun _ _ _ ws _ => (map (Z.add 1) ws, None);
     test_loop := fun _ _ => None;
     predict_step := fun _ _ _ i => inr (inject_Z (Z.of_nat (i mod 7)));
     bald_score := fun o => o |}.

(** As [toy], but the stochastic prediction runs out of memory when its
    seed is above [limit]. *)
Definition toy_oom (n : nat) (limit : nat) : Externals :=
  {| Tensor := Z;
     Output := Q;
     cifar10_train_len := n;
     vgg16_init := fun _ _ => [0%Z; 0%Z];
     training_loop := fun _ _ _ ws _ => (map (Z.add 1) ws, None);
     test_loop := fun _ _ => None;
     predict_step := fun seed _ _ i =>
       if (limit <? seed)%nat then inl (RuntimeError "CUDA out of memory")
       else inr (inject_Z (Z.of_nat (i mod 7)));
     bald_score := fun o => o |}.

(** As [toy], but the training epochs stop on an exception when their seed
    is above [limit], having moved the weights. *)
Definition toy_nan (n : nat) (limit : nat) : Externals :=
  {| Tensor := Z;
     Output := Q;
     cifar10_train_len := n;
     vgg16_init := fun _ _ => [0%Z; 0%Z];
     training_loop := fun seed _ _ ws _ =>
       (map (Z.add 1) ws,
        if (limit <? seed)%nat then Some (RuntimeError "loss is nan") else None);
     test_loop := fun _ _ => None;
     predict_step := fun _ _ _ i => inr (inject_Z (Z.of_nat (i mod 7)));
     bald_score := fun o => o |}.

(** A random source for the examples. *)
Definition r0 : nat -> nat := fun i => (7 * i + 3)%nat.

(** The services never raise. *)
Definition never_fails (X : Externals) : Prop :=
  (forall seed me hp ws ls, (training_loop X seed me hp ws ls).2 = None) /\
  (forall seed ws, test_loop X seed ws = None) /\
  (forall seed hp ws i, exists o, predict_step X seed hp ws i = inr o).

(** The position, from 1, of the first [false]. *)
Fixpoint first_false (l : list bool) : option nat :=
  match l with
  | [] => None
  | b :: l' => if b then S <$> first_false l' else Some 1%nat
  end.

(** ** The loop on sizes alone

    What the loop does to the sizes of the two sides, one row per step
    entered: [al_step], the sizes the step found, and whether it asked to go
    on.  A step labels [min k pool] items and asks to go on unless the pool
    it found was smaller than [k]. *)
Record Row := mkRow {
  row_step : nat;
  row_labelled : nat;
  row_pool : nat;
  row_continue : bool
}.

Fixpoint trajectory (k : Z) (steps : list nat) (labelled pool : nat) : list Row :=
  match steps with
  | [] => []
  | al_step :: rest =>
      let m := Nat.min (Z.to_nat k) pool in
      let go := (k <=? Z.of_nat pool)%Z in
      mkRow al_step labelled pool go ::
      (if go then trajectory k rest (labelled + m) (pool - m) else [])
  end.

(** The sizes the loop ends with. *)
Fixpoint final_sizes (k : Z) (steps : list nat) (labelled pool : nat) : nat * nat :=
  match steps with
  | [] => (labelled, pool)
  | al_step :: rest =>
      let m := Nat.min (Z.to_nat k) pool in
      if (k <=? Z.of_nat pool)%Z then final_sizes k rest (labelled + m) (pool - m)
      else ((labelled + m)%nat, (pool - m)%nat)
  end.

Section Model.
Context {X : Externals}.

(** ** The world of the run *)

(** What the run lets an observer see, in order: the [print] of the loop and
    the phases the trainer enters. *)
Inductive Event :=
| EvPrint (al_step : nat) (size : nat)
| EvTrainStart (weights : list (Tensor X)) (train_set : list nat)
| EvTest
| EvPredict (pool : list nat)
| EvLabel (indices : list nat)
| EvStep (should_continue : bool).

(** The objects the cells share.  [active_dataset] is the one
    [ActiveLearningDataset] that both the data module and the trainer hold;
    [heap] stores the tensors, a reference being a position in it. *)
Record World := mkWorld {
  hparams : HParams;
  active_dataset : list bool;
  heap : list (Tensor X);
  rng : nat -> nat;
  log : list Event
}.

Definition set_dataset (ds : list bool) (w : World) : World :=
  {| hparams := hparams w; active_dataset := ds; heap := heap w;
     rng := rng w; log := log w |}.

Definition set_heap (h : list (Tensor X)) (w : World) : World :=
  {| hparams := hparams w; active_dataset := active_dataset w; heap := h;
     rng := rng w; log := log w |}.

Definition set_rng (r : nat -> nat) (w : World) : World :=
  {| hparams := hparams w; active_dataset := active_dataset w; heap := heap w;
     rng := r; log := log w |}.

Definition add_log (ev : Event) (w : World) : World :=
  {| hparams := hparams w; active_dataset := active_dataset w; heap := heap w;
     rng := rng w; log := log w ++ [ev] |}.

(** ** Computations: state, exceptions, and the worlds passed through *)

Record Result (A : Type) := mkResult {
  outcome : exn + A;
  final : World;
  visited : list World
}.
Arguments mkResult {A}.
Arguments outcome {A}.
Arguments final {A}.
Arguments visited {A}.

Definition M (A : Type) : Type := World -> Result A.

Definition ret {A} (a : A) : M A := fun w => mkResult (inr a) w [].

(** An exception skips the rest; the world stays as it was when raised. *)
Definition bind {A B} (m : M A) (f : A -> M B) : M B := fun w =>
  let r := m w in
  match outcome r with
  | inl e => mkResult (inl e) (final r) (visited r)
  | inr a => let r' := f a (final r) in
             mkResult (outcome r') (final r') (visited r ++ visited r')
  end.

Definition raise {A} (e : exn) : M A := fun w => mkResult (inl e) w [].

Definition get : M World := fun w => mkResult (inr w) w [].

(** Every write goes through [modify] and records the world it leaves. *)
Definition modify (f : World -> World) : M unit := fun w =>
  mkResult (inr tt) (f w) [f w].

(** The result [r] of a continuation, after a write that left [w']. *)
Definition after_write {A} (w' : World) (r : Result A) : Result A :=
  mkResult (outcome r) (final r) (w' :: visited r).

#[global] Instance M_ret : MRet M := @ret.
#[global] Instance M_bind : MBind M := fun A B f m => bind m f.

Definition emit (ev : Event) : M unit := modify (add_log ev).

(** The next number of the random source. *)
Definition draw : M nat :=
  w ← get;
  modify (set_rng (fun i => rng w (S i)));;
  mret (rng w 0%nat).

(** ** The active dataset *)

(** The positions of [ds] holding flag [b], counted from [start]. *)
Fixpoint indices_where (b : bool) (ds : list bool) (start : nat) : list nat :=
  match ds with
  | [] => []
  | x :: ds' =>
      if Bool.eqb x b then start :: indices_where b ds' (S start)
      else indices_where b ds' (S start)
  end.

(** Modelled from the spec: the labelled/pool partition kept by
    [ActiveLearningDataset] (baal.active, not among the sources): one flag per
    item of the wrapped dataset, [true] for labelled.  The pool lists the
    unlabelled items in dataset order. *)
Definition pool (ds : list bool) : list nat := indices_where false ds 0.

Definition labelled_items (ds : list bool) : list nat := indices_where true ds 0.

(** [len(active_dataset)] as printed by the loop: the labelled items. *)
Definition n_labelled (ds : list bool) : nat := length (labelled_items ds).

Definition n_unlabelled (ds : list bool) : nat := length (pool ds).

(** The dataset positions of a list of pool positions; [None] when one of
    them is outside the pool. *)
Definition pool_to_dataset_index (ds : list bool) (index : list nat) : option (list nat) :=
  mapM (fun i => pool ds !! i) index.

Definition mark_labelled (ds : list bool) (items : list nat) : list bool :=
  foldl (fun d i => <[i:=true]> d) ds items.

(** Modelled from the spec: [ActiveLearningDataset.label(indices)] (baal.active,
    not among the sources).  The indices are positions in the pool, as the
    ranking is over the pool's outputs; the items there move to the labelled
    side.  The spec is silent on a position outside the pool: it is taken to
    raise before anything is written. *)
Definition label (index : list nat) : M unit :=
  w ← get;
  match pool_to_dataset_index (active_dataset w) index with
  | None => raise IndexError
  | Some items =>
      modify (fun w => add_log (EvLabel index)
                         (set_dataset (mark_labelled (active_dataset w) items) w))
  end.

(** Modelled from the spec: [ActiveLearningDataset.label_randomly(n)]
    (baal.active, not among the sources): [n] times, one item drawn from the
    current pool is labelled.  The spec is silent on a draw from an empty
    pool: it is taken to raise. *)
Fixpoint label_randomly (n : nat) : M unit :=
  match n with
  | O => mret tt
  | S n' =>
      w ← get;
      let p := n_unlabelled (active_dataset w) in
      if (p =? 0)%nat then raise ValueError
      else r ← draw; label [r mod p];; label_randomly n'
  end.

(** ** The heuristic *)

(** Insertion into a list kept by descending score; [x] goes before the
    first entry whose score is not above its own. *)
Fixpoint insert_desc (score : nat -> Q) (x : nat) (l : list nat) : list nat :=
  match l with
  | [] => [x]
  | y :: l' =>
      if Qle_bool (score y) (score x) then x :: l
      else y :: insert_desc score x l'
  end.

(** Modelled from the spec: [Heuristic.rank(outputs)] (baal.active.heuristics,
    not among the sources): the positions of the outputs by descending
    uncertainty, equal scores in their original order. *)
Definition rank (scores : list Q) : list nat :=
  foldr (insert_desc (fun i => default 0%Q (scores !! i))) [] (seq 0 (length scores)).

(** [BALD()] applied to the pool's outputs. *)
Definition BALD (outputs : list (Output X)) : list nat :=
  rank (map (bald_score X) outputs).

(** ** The model (cell 2) *)

(** A [VGG16] module: the hyperparameters it saved and the references to
    its parameter tensors. *)
Record Module := mkModule {
  m_hparams : list (string * value);
  m_params : list nat
}.

Definition read_all (locs : list nat) (h : list (Tensor X)) : list (Tensor X) :=
  omap (fun l => h !! l) locs.

(** New tensors at the end of the heap; their references. *)
Definition alloc_all (vals : list (Tensor X)) : M (list nat) :=
  w ← get;
  modify (set_heap (heap w ++ vals));;
  mret (seq (length (heap w)) (length vals)).

(** The constructor of [VGG16], called with keyword arguments:
    [save_hyperparameters()] keeps them, [_build_model] reads
    [self.hparams.num_classes] and builds the network.  Without that key the
    attribute is missing; a value that is no integer is refused when the
    layers are built. *)
Definition VGG16 (kwargs : list (string * value)) : M Module :=
  match getattr kwargs "num_classes" with
  | Some (VInt n) =>
      seed ← draw;
      params ← alloc_all (vgg16_init X seed n);
      mret {| m_hparams := kwargs; m_params := params |}
  | Some _ => raise TypeError
  | None => raise (AttributeError "num_classes")
  end.

(** [model.state_dict()]: the entries refer to the module's own tensors. *)
Definition state_dict (model : Module) : M (list nat) := mret (m_params model).

(** [copy.deepcopy] of a state dict: fresh tensors with the same contents. *)
Definition deepcopy (sd : list nat) : M (list nat) :=
  w ← get;
  alloc_all (read_all sd (heap w)).

(** [module.load_state_dict(sd)]: each parameter is overwritten in place
    with the contents of the corresponding entry. *)
Definition copy_into (h : list (Tensor X)) (p : nat * nat) : list (Tensor X) :=
  match h !! p.2 with
  | Some v => <[p.1:=v]> h
  | None => h
  end.

Definition load_state_dict (model : Module) (sd : list nat) : M unit :=
  modify (fun w => set_heap (foldl copy_into (heap w) (zip (m_params model) sd)) w).

(** In-place update of the parameters, as the optimiser does. *)
Definition store_all (locs : list nat) (vals : list (Tensor X)) : M unit :=
  modify (fun w => set_heap (foldl (fun h p => <[p.1:=p.2]> h) (heap w) (zip locs vals)) w).

(** ** The data module (cell 4) and the trainer (cell 7) *)

Record DataModule := mkDataModule {
  dm_batch_size : Z
}.

(** [Cifar10DataModule(data_root, batch_size)]: wraps the training set in an
    [ActiveLearningDataset], nothing labelled yet. *)
Definition Cifar10DataModule (root : string) (bs : Z) : M DataModule :=
  modify (set_dataset (replicate (cifar10_train_len X) false));;
  mret {| dm_batch_size := bs |}.

Inductive Callback :=
| ResetCallback (weights : list nat).

(** [BaalTrainer(dataset=..., heuristic=..., ndata_to_label=..., ...)].  The
    [dataset] argument is the world's [active_dataset] itself. *)
Record Trainer := mkTrainer {
  heuristic : list (Output X) -> list nat;
  ndata_to_label : Z;
  max_epochs : Z;
  default_root_dir : string;
  t_gpus : Z;
  callbacks : list Callback
}.

(** Modelled from the spec: [ResetCallback.on_train_start]
    (baal.utils.pytorch_lightning, not among the sources).  The spec lets no
    mutable state but the partition cross a step boundary, so the callback
    loads the weights it holds into the module when training starts. *)
Definition on_train_start (model : Module) (cb : Callback) : M unit :=
  match cb with
  | ResetCallback weights => load_state_dict model weights
  end.

Fixpoint run_callbacks (model : Module) (cbs : list Callback) : M unit :=
  match cbs with
  | [] => mret tt
  | cb :: cbs' => on_train_start model cb;; run_callbacks model cbs'
  end.

(** [trainer.fit(model, datamodule=data_module)]: the callbacks' hooks, then
    the training epochs on the labelled items, which update the module's
    tensors in place. *)
Definition fit (trainer : Trainer) (model : Module) (dm : DataModule) : M unit :=
  run_callbacks model (callbacks trainer);;
  seed ← draw;
  w ← get;
  let start := read_all (m_params model) (heap w) in
  let train_set := labelled_items (active_dataset w) in
  emit (EvTrainStart start train_set);;
  let res := training_loop X seed (max_epochs trainer) (m_hparams model) start train_set in
  store_all (m_params model) res.1;;
  match res.2 with
  | Some e => raise e
  | None => mret tt
  end.

(** [trainer.test(model, datamodule=data_module)] on the held-out test set. *)
Definition test (trainer : Trainer) (model : Module) (dm : DataModule) : M unit :=
  seed ← draw;
  w ← get;
  emit EvTest;;
  match test_loop X seed (read_all (m_params model) (heap w)) with
  | Some e => raise e
  | None => mret tt
  end.

(** One output per pool item, in pool order; the first failure aborts. *)
Fixpoint predict_outputs (seed : nat) (hp : list (string * value))
    (weights : list (Tensor X)) (items : list nat) : exn + list (Output X) :=
  match items with
  | [] => inr []
  | i :: items' =>
      match predict_step X seed hp weights i with
      | inl e => inl e
      | inr o =>
          match predict_outputs seed hp weights items' with
          | inl e => inl e
          | inr os => inr (o :: os)
          end
      end
  end.

(** The prediction pass over a dataset: it reads the weights and writes
    nothing. *)
Definition predict_on_dataset (seed : nat) (model : Module) (weights : list (Tensor X))
    (items : list nat) : M (list (Output X)) :=
  match predict_outputs seed (m_hparams model) weights items with
  | inl e => raise e
  | inr os => mret os
  end.

(** Modelled from the spec: [BaalTrainer.step] (baal.utils.pytorch_lightning,
    not among the sources): the outputs over the full pool, their ranking, the
    first [ndata_to_label] ranked positions, their labelling; completion is
    signalled when the pool was smaller than the query size. *)
Definition step (trainer : Trainer) (model : Module) (dm : DataModule) : M bool :=
  w ← get;
  let items := pool (active_dataset w) in
  emit (EvPredict items);;
  seed ← draw;
  outputs ← predict_on_dataset seed model (read_all (m_params model) (heap w)) items;
  let ranked := heuristic trainer outputs in
  let to_label := take (Z.to_nat (ndata_to_label trainer)) ranked in
  label to_label;;
  let should_continue := (ndata_to_label trainer <=? Z.of_nat (length items))%Z in
  emit (EvStep should_continue);;
  mret should_continue.

(** ** The loop (cell 8) *)

(** The body of the loop up to the assignment of [should_continue]: the
    [print], [fit], [test] and [step] calls. *)
Definition iteration (trainer : Trainer) (model : Module) (dm : DataModule)
    (al_step : nat) : M bool :=
  w ← get;
  emit (EvPrint al_step (n_labelled (active_dataset w)));;
  fit trainer model dm;;
  test trainer model dm;;
  step trainer model dm.

(** [for al_step in range(AL_STEPS): ...; if not should_continue: break],
    over the values [al_step] still to come. *)
Fixpoint al_loop (trainer : Trainer) (model : Module) (dm : DataModule)
    (steps : list nat) : M unit :=
  match steps with
  | [] => mret tt
  | al_step :: rest =>
      should_continue ← iteration trainer model dm al_step;
      if should_continue : bool then al_loop trainer model dm rest else mret tt
  end.

(** The loop over [steps] from [w] enters the iteration of [al_step] in
    world [w']: every iteration before it returned [True]. *)
Inductive enters (trainer : Trainer) (model : Module) (dm : DataModule) :
    list nat -> World -> nat -> World -> Prop :=
| enters_first al_step rest w :
    enters trainer model dm (al_step :: rest) w al_step w
| enters_next al_step0 rest w al_step w' :
    outcome (iteration trainer model dm al_step0 w) = inr true ->
    enters trainer model dm rest (final (iteration trainer model dm al_step0 w)) al_step w' ->
    enters trainer model dm (al_step0 :: rest) w al_step w'.

(** ** The notebook, cell after cell *)

(** The world once [hparams = HParams()] has run. *)
Definition startup (r : nat -> nat) : World :=
  {| hparams := HParams_default; active_dataset := []; heap := [];
     rng := r; log := [] |}.

(** Cells 5 (second line) to 8: the initial labelling, the heuristic and
    the model, the trainer, the loop. *)
Definition experiment (data_module : DataModule) : M unit :=
  label_randomly 10;;
  w ← get;
  model ← VGG16 (asdict (hparams w));
  w ← get;
  sd ← state_dict model;
  snapshot ← deepcopy sd;
  let trainer := {| heuristic := BALD;
                    ndata_to_label := query_size (hparams w);
                    max_epochs := 10%Z;
                    default_root_dir := data_root (hparams w);
                    t_gpus := gpus (hparams w);
                    callbacks := [ResetCallback snapshot] |} in
  al_loop trainer model data_module (seq 0 AL_STEPS).

Definition notebook : M unit :=
  w ← get;
  data_module ← Cifar10DataModule (data_root (hparams w)) (batch_size (hparams w));
  experiment data_module.

(** ** Observations on a run *)

(** The values [trainer.step] returned, in order. *)
Definition signals (l : list Event) : list bool :=
  omap (fun ev => match ev with EvStep b => Some b | _ => None end) l.

(** The sizes of the pools the predictions ran over, in order. *)
Definition pool_sizes (l : list Event) : list nat :=
  omap (fun ev => match ev with EvPredict items => Some (length items) | _ => None end) l.

(** The lines printed: [al_step] and the dataset size shown. *)
Definition printed (l : list Event) : list (nat * nat) :=
  omap (fun ev => match ev with EvPrint i n => Some (i, n) | _ => None end) l.

(** The parameters each training started from, in order. *)
Definition train_starts (l : list Event) : list (list (Tensor X)) :=
  omap (fun ev => match ev with EvTrainStart ws _ => Some ws | _ => None end) l.

(** The phase an event belongs to, in the order of the loop body. *)
Definition phase (ev : Event) : nat :=
  match ev with
  | EvPrint _ _ => 0
  | EvTrainStart _ _ => 1
  | EvTest => 2
  | EvPredict _ => 3
  | EvLabel _ => 4
  | EvStep _ => 5
  end.

(** The events a computation added to the log of [w]. *)
Definition new_events {A} (w : World) (r : Result A) : list Event :=
  drop (length (log w)) (log (final r)).

(** The two sides of the partition and the items there are, as sets. *)
Definition labelled_set (w : World) : gset nat :=
  list_to_set (labelled_items (active_dataset w)).

Definition pool_set (w : World) : gset nat :=
  list_to_set (pool (active_dataset w)).

Definition all_items (n : nat) : gset nat := list_to_set (seq 0 n).

(** No write of the run after the data module exists changes [hparams] or
    the number of items, and none clears a flag. *)
Definition advances (w w' : World) : Prop :=
  hparams w' = hparams w /\
  length (active_dataset w') = length (active_dataset w) /\
  forall i, active_dataset w !! i = Some true -> active_dataset w' !! i = Some true.

(** The partition over [n] items: the two sides cover them and share none. *)
Definition partitioned (n : nat) (w : World) : Prop :=
  labelled_set w ∪ pool_set w = all_items n /\ labelled_set w ∩ pool_set w = ∅.

(** Field by field, [h'] holds what [h] holds. *)
Definition same_fields (h h' : HParams) : Prop :=
  batch_size h' = batch_size h /\ data_root h' = data_root h /\
  num_classes h' = num_classes h /\ learning_rate h' = learning_rate h /\
  query_size h' = query_size h /\ iterations h' = iterations h /\
  replicate_in_memory h' = replicate_in_memory h /\ gpus h' = gpus h.

(** What is labelled in [w] is labelled, and not in the pool, in [w']. *)
Definition stays_labelled (w w' : World) : Prop :=
  labelled_set w ⊆ labelled_set w' /\ labelled_set w ## pool_set w'.


(** Successive worlds related by [R], starting from [w]. *)
Fixpoint chain (R : World -> World -> Prop) (w : World) (l : list World) : Prop :=
  match l with
  | [] => True
  | w' :: l' => R w w' /\ chain R w' l'
  end.

(** Every write of [m] is an [R]-move, and [m] ends in the last world it wrote. *)
Definition traces (R : World -> World -> Prop) {A} (m : M A) : Prop :=
  forall w, chain R w (visited (m w)) /\ final (m w) = default w (last (visited (m w))).


(** The tensors once the callbacks' [on_train_start] hooks have run. *)
Definition reset_heap (model : Module) (cbs : list Callback) (h : list (Tensor X)) :
    list (Tensor X) :=
  foldl (fun h cb => match cb with
                     | ResetCallback sd => foldl copy_into h (zip (m_params model) sd)
                     end) h cbs.

(** What the training epochs of [trainer.fit], called in world [w], return. *)
Definition training_of (trainer : Trainer) (model : Module) (w : World) :
    list (Tensor X) * option exn :=
  training_loop X (rng w 0%nat) (max_epochs trainer) (m_hparams model)
    (read_all (m_params model) (reset_heap model (callbacks trainer) (heap w)))
    (labelled_items (active_dataset w)).

(** The weights of the module once that training has written them. *)
Definition trained_weights (trainer : Trainer) (model : Module) (w : World) :
    list (Tensor X) :=
  read_all (m_params model)
    (foldl (fun h p => <[p.1:=p.2]> h) (reset_heap model (callbacks trainer) (heap w))
       (zip (m_params model) (training_of trainer model w).1)).

(** A phase of the iteration started in [w] fails with [e]: the training
    (phase 1), or after it the test (phase 2), or after both the uncertainty
    computation over the pool (phase 3).  The failure is that of the
    service: the training epochs or the evaluation stop on [e], or the
    prediction of some pool item returns [e]. *)
Inductive phase_failure (trainer : Trainer) (model : Module) (w : World) (e : exn) :
    nat -> Prop :=
| training_fails :
    (training_of trainer model w).2 = Some e ->
    phase_failure trainer model w e 1
| test_fails :
    (training_of trainer model w).2 = None ->
    test_loop X (rng w 1%nat) (trained_weights trainer model w) = Some e ->
    phase_failure trainer model w e 2
| prediction_fails :
    (training_of trainer model w).2 = None ->
    test_loop X (rng w 1%nat) (trained_weights trainer model w) = None ->
    predict_outputs (rng w 2%nat) (m_hparams model) (trained_weights trainer model w)
      (pool (active_dataset w)) = inl e ->
    phase_failure trainer model w e 3.

(** The items each training ran on, in order. *)
Definition train_sets (l : list Event) : list (list nat) :=
  omap (fun ev => match ev with EvTrainStart _ items => Some items | _ => None end) l.

(** ** Small worlds to run the definitions in *)

(** A world of [n] unlabelled items, no tensor, nothing logged. *)
Definition small_world (n : nat) : World :=
  {| hparams := HParams_default; active_dataset := replicate n false; heap := [];
     rng := r0; log := [] |}.

Definition model0 : Module :=
  {| m_hparams := asdict HParams_default; m_params := [] |}.

Definition dm0 : DataModule := {| dm_batch_size := 10%Z |}.

(** A trainer labelling three items a step. *)
Definition trainer3 : Trainer :=
  {| heuristic := BALD; ndata_to_label := 3%Z; max_epochs := 10%Z;
     default_root_dir := "/tmp"; t_gpus := 1%Z; callbacks := [] |}.

(** * Properties *)

(** ** Running a computation *)

Lemma run_bind {A B} (m : M A) (f : A -> M B) (w : World) :
  (m ≫= f) w =
  match outcome (m w) with
  | inl e => mkResult (inl e) (final (m w)) (visited (m w))
  | inr a => mkResult (outcome (f a (final (m w)))) (final (f a (final (m w))))
               (visited (m w) ++ visited (f a (final (m w))))
  end.
Proof. reflexivity. Qed.

Lemma bind_raises {A B} (m : M A) (f : A -> M B) w e :
  outcome (m w) = inl e ->
  (m ≫= f) w = mkResult (inl e) (final (m w)) (visited (m w)).
Proof. intros H. rewrite run_bind, H. reflexivity. Qed.

Lemma bind_returns {A B} (m : M A) (f : A -> M B) w a :
  outcome (m w) = inr a ->
  (m ≫= f) w = mkResult (outcome (f a (final (m w)))) (final (f a (final (m w))))
                 (visited (m w) ++ visited (f a (final (m w)))).
Proof. intros H. rewrite run_bind, H. reflexivity. Qed.

Lemma bind_inr_inv {A B} (m : M A) (f : A -> M B) w b :
  outcome ((m ≫= f) w) = inr b ->
  exists a, outcome (m w) = inr a /\ outcome (f a (final (m w))) = inr b.
Proof.
  rewrite run_bind. destruct (outcome (m w)) as [e|a]; simpl; [discriminate|].
  intros H. exists a. split; [reflexivity|exact H].
Qed.

Lemma run_get {A} (f : World -> M A) w : (get ≫= f) w = f w w.
Proof. rewrite run_bind. cbn [get outcome final visited]. destruct (f w w); reflexivity. Qed.

Lemma run_ret {A B} (a : A) (f : A -> M B) w : (mret a ≫= f) w = f a w.
Proof.
  rewrite run_bind. cbn [mret M_ret ret outcome final visited].
  destruct (f a w); reflexivity.
Qed.

Lemma run_raise {A B} e (f : A -> M B) w : (raise e ≫= f) w = mkResult (inl e) w [].
Proof. reflexivity. Qed.

Lemma run_modify {A} g (f : unit -> M A) w :
  (modify g ≫= f) w = after_write (g w) (f tt (g w)).
Proof. reflexivity. Qed.

Lemma run_emit {A} ev (f : unit -> M A) w :
  (emit ev ≫= f) w = after_write (add_log ev w) (f tt (add_log ev w)).
Proof. reflexivity. Qed.

Lemma run_draw {A} (f : nat -> M A) w :
  (draw ≫= f) w =
  after_write (set_rng (fun i => rng w (S i)) w)
    (f (rng w 0%nat) (set_rng (fun i => rng w (S i)) w)).
Proof. reflexivity. Qed.

Lemma run_label {A} index (f : unit -> M A) w :
  (label index ≫= f) w =
  match pool_to_dataset_index (active_dataset w) index with
  | None => mkResult (inl IndexError) w []
  | Some items =>
      let w' := add_log (EvLabel index)
                  (set_dataset (mark_labelled (active_dataset w) items) w) in
      after_write w' (f tt w')
  end.
Proof.
  rewrite run_bind. unfold label. rewrite run_get.
  destruct (pool_to_dataset_index _ _); reflexivity.
Qed.

(** ** Chains of writes *)

Lemma chain_app R w l1 l2 :
  chain R w (l1 ++ l2) <-> chain R w l1 /\ chain R (default w (last l1)) l2.
Proof.
  revert w. induction l1 as [|x l1 IH]; intros w; simpl.
  - tauto.
  - rewrite IH, last_cons. destruct (last l1); simpl; tauto.
Qed.

Lemma chain_mono (R R' : World -> World -> Prop) w l :
  (forall a b, R a b -> R' a b) -> chain R w l -> chain R' w l.
Proof.
  intros HR. revert w. induction l as [|x l IH]; intros w; simpl; [tauto|].
  intros [H1 H2]. split; [apply HR, H1 | apply IH, H2].
Qed.

Lemma traces_ret R {A} (a : A) : traces R (mret a).
Proof. intros w. simpl. auto. Qed.

Lemma traces_raise R {A} e : traces R (@raise A e).
Proof. intros w. simpl. auto. Qed.

Lemma traces_get R : traces R get.
Proof. intros w. simpl. auto. Qed.

Lemma traces_modify (R : World -> World -> Prop) f :
  (forall w, R w (f w)) -> traces R (modify f).
Proof. intros H w. simpl. auto. Qed.

Lemma traces_bind R {A B} (m : M A) (f : A -> M B) :
  traces R m -> (forall a, traces R (f a)) -> traces R (m ≫= f).
Proof.
  intros Hm Hf w. rewrite run_bind. destruct (Hm w) as [Hc Hl].
  destruct (outcome (m w)) as [e|a]; simpl; [auto|].
  destruct (Hf a (final (m w))) as [Hc' Hl'].
  split.
  - apply chain_app. split; [exact Hc|]. rewrite <- Hl. exact Hc'.
  - rewrite Hl', last_app. destruct (last (visited (f a (final (m w))))); simpl; auto.
Qed.

(** ** Writes after the data module exists *)

Lemma advances_refl w : advances w w.
Proof. unfold advances. auto. Qed.

Lemma advances_trans w1 w2 w3 : advances w1 w2 -> advances w2 w3 -> advances w1 w3.
Proof.
  intros (H1 & H2 & H3) (H4 & H5 & H6). unfold advances.
  repeat split; [congruence | congruence | auto].
Qed.

Lemma chain_advances_all w l :
  chain advances w l -> Forall (advances w) l.
Proof.
  revert w. induction l as [|x l IH]; intros w; simpl; [constructor|].
  intros [H1 H2]. constructor; [exact H1|].
  eapply Forall_impl; [apply IH, H2|]. intros y Hy. eapply advances_trans; eauto.
Qed.

Lemma chain_advances_pairs w l i j wi wj :
  chain advances w l -> (i <= j)%nat ->
  l !! i = Some wi -> l !! j = Some wj -> advances wi wj.
Proof.
  revert w i j. induction l as [|x l IH]; intros w i j Hc Hij Hi Hj; [discriminate|].
  destruct Hc as [H1 H2].
  destruct i as [|i].
  - injection Hi as <-. destruct j as [|j].
    + injection Hj as <-. apply advances_refl.
    + simpl in Hj. pose proof (chain_advances_all _ _ H2) as Hall.
      rewrite Forall_forall in Hall. apply Hall.
      eapply list_elem_of_lookup_2. exact Hj.
  - destruct j as [|j]; [lia|]. simpl in Hi, Hj.
    eapply (IH x i j); eauto. lia.
Qed.

Lemma insert_true_keeps (ds : list bool) j i :
  ds !! i = Some true -> <[j:=true]> ds !! i = Some true.
Proof.
  intros H. destruct (decide (j = i)) as [->|Hne].
  - rewrite list_lookup_insert_eq; [reflexivity|]. eapply lookup_lt_Some, H.
  - rewrite list_lookup_insert_ne; auto.
Qed.

Lemma mark_labelled_length ds items :
  length (mark_labelled ds items) = length ds.
Proof.
  unfold mark_labelled. revert ds. induction items as [|i items IH]; intros ds; simpl.
  - reflexivity.
  - rewrite IH. apply length_insert.
Qed.

Lemma mark_labelled_keeps ds items i :
  ds !! i = Some true -> mark_labelled ds items !! i = Some true.
Proof.
  unfold mark_labelled. revert ds. induction items as [|j items IH]; intros ds H; simpl.
  - exact H.
  - apply IH, insert_true_keeps, H.
Qed.

Lemma advances_set_heap h w : advances w (set_heap h w).
Proof. unfold advances. simpl. auto. Qed.

Lemma advances_set_rng r w : advances w (set_rng r w).
Proof. unfold advances. simpl. auto. Qed.

Lemma advances_add_log ev w : advances w (add_log ev w).
Proof. unfold advances. simpl. auto. Qed.

Lemma advances_mark ev items w :
  advances w (add_log ev (set_dataset (mark_labelled (active_dataset w) items) w)).
Proof.
  unfold advances. simpl. split; [reflexivity|]. split.
  - apply mark_labelled_length.
  - intros i. apply mark_labelled_keeps.
Qed.

Create HintDb traces.

#[local] Hint Resolve traces_ret traces_raise traces_get : traces.
#[local] Hint Resolve advances_set_heap advances_set_rng advances_add_log advances_mark : traces.

Ltac traces_step :=
  lazymatch goal with
  | |- traces _ (mret _) => apply traces_ret
  | |- traces _ (raise _) => apply traces_raise
  | |- traces _ get => apply traces_get
  | |- traces _ (modify _) => apply traces_modify; intros; auto with traces
  | |- traces _ (_ ≫= _) => apply traces_bind; [|intros]
  end.

Lemma traces_draw : traces advances draw.
Proof. unfold draw. repeat traces_step. Qed.

Lemma traces_emit ev : traces advances (emit ev).
Proof. unfold emit. traces_step. Qed.

Lemma traces_label index : traces advances (label index).
Proof.
  unfold label. traces_step; [traces_step|].
  destruct (pool_to_dataset_index _ _); traces_step.
Qed.

Lemma traces_label_randomly n : traces advances (label_randomly n).
Proof.
  induction n as [|n IH]; simpl; [traces_step|].
  traces_step; [traces_step|].
  destruct (_ =? _)%nat; [traces_step|].
  traces_step; [apply traces_draw|].
  traces_step; [apply traces_label|exact IH].
Qed.

Lemma traces_alloc_all vals : traces advances (alloc_all vals).
Proof. unfold alloc_all. repeat traces_step. Qed.

Lemma traces_VGG16 kwargs : traces advances (VGG16 kwargs).
Proof.
  unfold VGG16. destruct (getattr kwargs "num_classes") as [[]|]; try traces_step.
  - apply traces_draw.
  - traces_step; [apply traces_alloc_all|traces_step].
Qed.

Lemma traces_deepcopy sd : traces advances (deepcopy sd).
Proof. unfold deepcopy. traces_step; [traces_step|apply traces_alloc_all]. Qed.

Lemma traces_load_state_dict model sd : traces advances (load_state_dict model sd).
Proof. unfold load_state_dict. traces_step. Qed.

Lemma traces_store_all locs vals : traces advances (store_all locs vals).
Proof. unfold store_all. traces_step. Qed.

Lemma traces_run_callbacks model cbs : traces advances (run_callbacks model cbs).
Proof.
  induction cbs as [|[sd] cbs IH]; simpl; [traces_step|].
  traces_step; [apply traces_load_state_dict|exact IH].
Qed.

Lemma traces_fit trainer model dm : traces advances (fit trainer model dm).
Proof.
  unfold fit. traces_step; [apply traces_run_callbacks|].
  traces_step; [apply traces_draw|].
  traces_step; [traces_step|].
  traces_step; [apply traces_emit|].
  traces_step; [apply traces_store_all|].
  destruct (_.2); traces_step.
Qed.

Lemma traces_test trainer model dm : traces advances (test trainer model dm).
Proof.
  unfold test. traces_step; [apply traces_draw|].
  traces_step; [traces_step|].
  traces_step; [apply traces_emit|].
  destruct (test_loop _ _ _); traces_step.
Qed.

Lemma traces_predict_on_dataset seed model ws items :
  traces advances (predict_on_dataset seed model ws items).
Proof. unfold predict_on_dataset. destruct (predict_outputs _ _ _ _); traces_step. Qed.

Lemma traces_step_ trainer model dm : traces advances (step trainer model dm).
Proof.
  unfold step. traces_step; [traces_step|].
  traces_step; [apply traces_emit|].
  traces_step; [apply traces_draw|].
  traces_step; [apply traces_predict_on_dataset|].
  traces_step; [apply traces_label|].
  traces_step; [apply traces_emit|traces_step].
Qed.

Lemma traces_iteration trainer model dm al_step :
  traces advances (iteration trainer model dm al_step).
Proof.
  unfold iteration. traces_step; [traces_step|].
  traces_step; [apply traces_emit|].
  traces_step; [apply traces_fit|].
  traces_step; [apply traces_test|apply traces_step_].
Qed.

Lemma traces_al_loop trainer model dm steps :
  traces advances (al_loop trainer model dm steps).
Proof.
  induction steps as [|s steps IH]; simpl; [traces_step|].
  traces_step; [apply traces_iteration|].
  destruct a; [exact IH|traces_step].
Qed.

Lemma traces_experiment dm : traces advances (experiment dm).
Proof.
  unfold experiment. traces_step; [apply traces_label_randomly|].
  traces_step; [traces_step|].
  traces_step; [apply traces_VGG16|].
  traces_step; [traces_step|].
  traces_step; [unfold state_dict; traces_step|].
  traces_step; [apply traces_deepcopy|apply traces_al_loop].
Qed.

(** The first write of the notebook creates the dataset; the experiment
    runs from there. *)
Lemma notebook_run r :
  let w1 := set_dataset (replicate (cifar10_train_len X) false) (startup r) in
  let dm := {| dm_batch_size := 10%Z |} in
  notebook (startup r) =
  mkResult (outcome (experiment dm w1)) (final (experiment dm w1))
           (w1 :: visited (experiment dm w1)).
Proof. reflexivity. Qed.

(** ** The two sides of the partition *)

Lemma elem_of_indices_where b ds s i :
  i ∈ indices_where b ds s <-> exists j, i = (s + j)%nat /\ ds !! j = Some b.
Proof.
  revert s. induction ds as [|x ds IH]; intros s; simpl.
  - split; [intros H; inversion H | intros (j & _ & H); discriminate].
  - assert (Hrest : i ∈ indices_where b ds (S s) <->
                    exists j, i = (s + S j)%nat /\ ds !! j = Some b).
    { rewrite IH. split; intros (j & -> & H); exists j; split; auto; lia. }
    destruct (Bool.eqb x b) eqn:E.
    + apply Bool.eqb_prop in E. subst x. rewrite elem_of_cons, Hrest. split.
      * intros [->|(j & -> & H)]; [exists 0%nat; split; [lia|reflexivity]|].
        exists (S j). split; [lia|exact H].
      * intros ([|j] & -> & H); [left; lia|]. right. exists j. split; [lia|exact H].
    + apply Bool.eqb_false_iff in E. rewrite Hrest. split.
      * intros (j & -> & H). exists (S j). split; [lia|exact H].
      * intros ([|j] & -> & H); [simpl in H; congruence|]. exists j. split; [lia|exact H].
Qed.

Lemma elem_of_labelled_set (w : World) i :
  i ∈ labelled_set w <-> active_dataset w !! i = Some true.
Proof.
  unfold labelled_set, labelled_items. rewrite elem_of_list_to_set, elem_of_indices_where.
  split; [intros (j & -> & H); exact H | intros H; exists i; auto].
Qed.

Lemma elem_of_pool_set (w : World) i :
  i ∈ pool_set w <-> active_dataset w !! i = Some false.
Proof.
  unfold pool_set, pool. rewrite elem_of_list_to_set, elem_of_indices_where.
  split; [intros (j & -> & H); exact H | intros H; exists i; auto].
Qed.

Lemma elem_of_all_items n i : i ∈ all_items n <-> (i < n)%nat.
Proof.
  unfold all_items. rewrite elem_of_list_to_set, elem_of_seq. lia.
Qed.

(** One flag per item: the two sides always partition the items there are. *)
Lemma partitioned_length (w : World) : partitioned (length (active_dataset w)) w.
Proof.
  split; apply set_eq; intros i.
  - rewrite elem_of_union, elem_of_labelled_set, elem_of_pool_set, elem_of_all_items.
    split.
    + intros [H|H]; eapply lookup_lt_Some, H.
    + intros H. apply lookup_lt_is_Some in H. destruct H as [[] H]; auto.
  - rewrite elem_of_intersection, elem_of_labelled_set, elem_of_pool_set, elem_of_empty.
    split; [intros [H1 H2]; congruence | tauto].
Qed.

Lemma advances_partitioned n w w' :
  length (active_dataset w) = n -> advances w w' -> partitioned n w'.
Proof.
  intros <- (_ & <- & _). apply partitioned_length.
Qed.

Lemma advances_stays_labelled w w' : advances w w' -> stays_labelled w w'.
Proof.
  intros (_ & _ & H). split.
  - intros i. rewrite !elem_of_labelled_set. apply H.
  - intros i. rewrite elem_of_labelled_set, elem_of_pool_set. intros H1 H2.
    apply H in H1. congruence.
Qed.

Lemma chain_visited_partitioned n w l :
  length (active_dataset w) = n -> chain advances w l -> Forall (partitioned n) l.
Proof.
  intros Hn Hc. eapply Forall_impl; [apply chain_advances_all, Hc|].
  intros w'. apply advances_partitioned, Hn.
Qed.

Lemma chain_ordered_pairs w l :
  chain advances w l -> ForallOrdPairs stays_labelled l.
Proof.
  revert w. induction l as [|x l IH]; intros w; simpl; [constructor|].
  intros [_ H]. constructor; [|eapply IH, H].
  eapply Forall_impl; [apply chain_advances_all, H|]. apply advances_stays_labelled.
Qed.

Lemma same_fields_eq h h' : h' = h -> same_fields h h'.
Proof. intros ->. unfold same_fields. repeat split. Qed.

Lemma final_visited {A} (m : M A) w :
  traces advances m -> final (m w) = w \/ final (m w) ∈ visited (m w).
Proof.
  intros H. destruct (H w) as [_ ->].
  destruct (last (visited (m w))) eqn:E; simpl; [right|left; reflexivity].
  apply last_Some in E. destruct E as [l' ->]. set_solver.
Qed.

(** C9: [hparams] is created once and never written: in the world after its
    construction, in every world the notebook passes through and in the one
    it ends in, each of the eight fields holds the value it was given at
    construction. *)
Theorem hparams_read_only (r : nat -> nat) :
  Forall (fun w => same_fields HParams_default (hparams w))
         (startup r :: visited (notebook (startup r)) ++ [final (notebook (startup r))]).
Proof.
  rewrite notebook_run. cbn zeta. cbn [visited final].
  set (w1 := set_dataset _ (startup r)).
  set (dm := mkDataModule _).
  pose proof (traces_experiment dm w1) as [Hc Hl].
  apply chain_advances_all in Hc.
  assert (Hv : Forall (fun w => same_fields HParams_default (hparams w))
                 (visited (experiment dm w1))).
  { eapply Forall_impl; [exact Hc|]. intros w (Hh & _). apply same_fields_eq.
    rewrite Hh. reflexivity. }
  constructor; [apply same_fields_eq; reflexivity|].
  constructor; [apply same_fields_eq; reflexivity|].
  apply Forall_app. split; [exact Hv|].
  constructor; [|constructor].
  destruct (final_visited (experiment dm) w1 (traces_experiment dm)) as [->|Hin].
  - apply same_fields_eq. reflexivity.
  - rewrite Forall_forall in Hv. apply Hv, Hin.
Qed.

(** C3: the labelled/pool partition is exhaustive and disjoint and stays so:
    in every world [label_randomly] or [trainer.step] writes, and in every
    world the notebook passes through once the dataset exists, the labelled
    side and the pool together are all the items and share none. *)
Theorem partition_preserved :
  (forall n w, Forall (partitioned (length (active_dataset w)))
                 (visited (label_randomly n w))) /\
  (forall trainer model dm w,
      Forall (partitioned (length (active_dataset w)))
        (visited (step trainer model dm w))) /\
  (forall r, Forall (partitioned (cifar10_train_len X))
               (visited (notebook (startup r)) ++ [final (notebook (startup r))])).
Proof.
  split; [|split].
  - intros n w. eapply chain_visited_partitioned; [reflexivity|].
    apply traces_label_randomly.
  - intros trainer model dm w. eapply chain_visited_partitioned; [reflexivity|].
    apply traces_step_.
  - intros r. rewrite notebook_run. cbn zeta. cbn [visited final].
    set (w1 := set_dataset _ (startup r)).
    set (dm := mkDataModule _).
    assert (Hlen : length (active_dataset w1) = cifar10_train_len X).
    { subst w1. simpl. apply length_replicate. }
    assert (H1 : partitioned (cifar10_train_len X) w1).
    { rewrite <- Hlen. apply partitioned_length. }
    assert (Hv : Forall (partitioned (cifar10_train_len X)) (visited (experiment dm w1))).
    { eapply chain_visited_partitioned; [exact Hlen|]. apply traces_experiment. }
    rewrite <- app_comm_cons. constructor; [exact H1|].
    apply Forall_app. split; [exact Hv|].
    constructor; [|constructor].
    destruct (final_visited (experiment dm) w1 (traces_experiment dm)) as [->|Hin];
      [exact H1|].
    rewrite Forall_forall in Hv. apply Hv, Hin.
Qed.

(** C8: labelling is monotonic over the whole run: of any two worlds the
    notebook passes through, in order, every item labelled in the earlier
    one is labelled in the later one and is not in its pool. *)
Theorem labelling_monotonic (r : nat -> nat) :
  ForallOrdPairs stays_labelled (visited (notebook (startup r))).
Proof.
  rewrite notebook_run. cbn zeta. cbn [visited].
  set (w1 := set_dataset _ (startup r)).
  set (dm := mkDataModule _).
  pose proof (traces_experiment dm w1) as [Hc _].
  constructor.
  - eapply Forall_impl; [apply chain_advances_all, Hc|].
    apply advances_stays_labelled.
  - eapply chain_ordered_pairs, Hc.
Qed.

(** ** One call of [trainer.step] *)

Lemma step_run trainer model dm w :
  let items := pool (active_dataset w) in
  let w1 := add_log (EvPredict items) w in
  let w2 := set_rng (fun i => rng w (S i)) w1 in
  step trainer model dm w =
  match predict_outputs (rng w 0%nat) (m_hparams model)
          (read_all (m_params model) (heap w)) items with
  | inl e => mkResult (inl e) w2 [w1; w2]
  | inr outputs =>
      let to_label := take (Z.to_nat (ndata_to_label trainer)) (heuristic trainer outputs) in
      match pool_to_dataset_index (active_dataset w) to_label with
      | None => mkResult (inl IndexError) w2 [w1; w2]
      | Some picked =>
          let w3 := add_log (EvLabel to_label)
                      (set_dataset (mark_labelled (active_dataset w) picked) w2) in
          let sc := (ndata_to_label trainer <=? Z.of_nat (length items))%Z in
          let w4 := add_log (EvStep sc) w3 in
          mkResult (inr sc) w4 [w1; w2; w3; w4]
      end
  end.
Proof.
  cbn zeta. unfold step. rewrite run_get, run_emit, run_draw.
  unfold predict_on_dataset.
  cbn [add_log set_rng rng active_dataset heap].
  destruct (predict_outputs _ _ _ _) as [e|outputs]; [reflexivity|].
  rewrite run_ret, run_label.
  cbn [add_log set_rng rng active_dataset heap].
  destruct (pool_to_dataset_index _ _) as [picked|]; reflexivity.
Qed.

(** ** Sizes of the two sides *)

Lemma indices_where_lengths ds s :
  (length (indices_where true ds s) + length (indices_where false ds s) = length ds)%nat.
Proof.
  revert s. induction ds as [|[] ds IH]; intros s; simpl; [reflexivity| |];
    specialize (IH (S s)); lia.
Qed.

Lemma sizes_total ds : (n_labelled ds + n_unlabelled ds = length ds)%nat.
Proof. apply indices_where_lengths. Qed.

Lemma indices_where_insert ds i s :
  ds !! i = Some false ->
  length (indices_where true (<[i:=true]> ds) s) = S (length (indices_where true ds s)).
Proof.
  revert i s. induction ds as [|x ds IH]; intros i s H; [discriminate|].
  destruct i as [|i]; simpl in *.
  - injection H as ->. reflexivity.
  - destruct x; simpl; rewrite (IH i (S s) H); reflexivity.
Qed.

Lemma mark_labelled_size ds items :
  NoDup items -> Forall (fun i => ds !! i = Some false) items ->
  n_labelled (mark_labelled ds items) = (n_labelled ds + length items)%nat.
Proof.
  unfold mark_labelled, n_labelled, labelled_items.
  revert ds. induction items as [|i items IH]; intros ds Hnd Hall; simpl; [lia|].
  apply NoDup_cons in Hnd as [Hni Hnd]. apply Forall_cons in Hall as [Hi Hall].
  rewrite IH; [rewrite (indices_where_insert _ _ _ Hi); lia | exact Hnd |].
  rewrite Forall_forall in Hall |- *. intros j Hj.
  rewrite list_lookup_insert_ne; [apply Hall, Hj|]. intros ->. exact (Hni Hj).
Qed.

Lemma indices_where_NoDup b ds s : NoDup (indices_where b ds s).
Proof.
  revert s. induction ds as [|x ds IH]; intros s; simpl; [constructor|].
  destruct (Bool.eqb x b); [|apply IH].
  constructor; [|apply IH]. rewrite elem_of_indices_where. intros (j & Hj & _). lia.
Qed.

Lemma pool_flags ds i item : pool ds !! i = Some item -> ds !! item = Some false.
Proof.
  intros H. apply list_elem_of_lookup_2 in H. unfold pool in H.
  apply elem_of_indices_where in H as (j & -> & H). exact H.
Qed.

(** Distinct positions of the pool are distinct unlabelled items. *)
Lemma pool_to_dataset_index_spec ds index picked :
  pool_to_dataset_index ds index = Some picked ->
  length picked = length index /\
  Forall (fun i => ds !! i = Some false) picked /\
  (NoDup index -> NoDup picked).
Proof.
  unfold pool_to_dataset_index. rewrite mapM_Some. intros H.
  induction H as [|i item index picked Hi H IH]; [repeat split; constructor|].
  destruct IH as (Hlen & Hall & Hnd). split; [simpl; lia|]. split.
  - constructor; [eapply pool_flags, Hi|exact Hall].
  - intros Hd. apply NoDup_cons in Hd as [Hni Hd]. constructor; [|apply Hnd, Hd].
    intros Hin. apply Hni.
    apply list_elem_of_lookup in Hin as [n Hn].
    destruct (Forall2_lookup_r _ _ _ _ _ H Hn) as (i' & Hi' & Hpi').
    assert (i' = i) as ->.
    { eapply NoDup_lookup; [apply (indices_where_NoDup false ds 0)| exact Hpi' | exact Hi]. }
    eapply list_elem_of_lookup_2, Hi'.
Qed.

Lemma pool_to_dataset_index_in_range ds index :
  Forall (fun i => (i < n_unlabelled ds)%nat) index ->
  is_Some (pool_to_dataset_index ds index).
Proof.
  intros H. unfold pool_to_dataset_index. apply mapM_is_Some.
  eapply Forall_impl; [exact H|]. intros i Hi. apply lookup_lt_is_Some. exact Hi.
Qed.

(** ** The ranking *)

Lemma insert_desc_perm score x l : insert_desc score x l ≡ₚ x :: l.
Proof.
  induction l as [|y l IH]; simpl; [reflexivity|].
  destruct (Qle_bool _ _); [reflexivity|]. rewrite IH. apply Permutation_swap.
Qed.

Lemma rank_perm scores : rank scores ≡ₚ seq 0 (length scores).
Proof.
  unfold rank. generalize (fun i : nat => default 0%Q (scores !! i)) as score.
  intros score. induction (seq 0 (length scores)) as [|x l IH]; simpl; [reflexivity|].
  rewrite insert_desc_perm, IH. reflexivity.
Qed.

Lemma BALD_perm outputs : BALD outputs ≡ₚ seq 0 (length outputs).
Proof. unfold BALD. rewrite rank_perm, length_map. reflexivity. Qed.

Lemma predict_outputs_length seed hp ws items outputs :
  predict_outputs seed hp ws items = inr outputs -> length outputs = length items.
Proof.
  revert outputs. induction items as [|i items IH]; intros outputs; simpl.
  - intros [= <-]. reflexivity.
  - destruct (predict_step _ _ _ _ _); [discriminate|].
    destruct (predict_outputs _ _ _ _); [discriminate|].
    intros [= <-]. simpl. f_equal. apply IH. reflexivity.
Qed.

Lemma predict_outputs_never_fails seed hp ws items :
  never_fails X -> exists outputs, predict_outputs seed hp ws items = inr outputs.
Proof.
  intros (_ & _ & Hp). induction items as [|i items [os IH]]; simpl; [eauto|].
  destruct (Hp seed hp ws i) as [o ->]. rewrite IH. eauto.
Qed.

(** The first [k] of a ranking of [n] outputs: [min k n] distinct positions
    below [n]. *)
Lemma take_ranking k (ranked : list nat) n :
  ranked ≡ₚ seq 0 n ->
  length (take k ranked) = Nat.min k n /\
  NoDup (take k ranked) /\
  Forall (fun i => (i < n)%nat) (take k ranked).
Proof.
  intros Hp. split; [|split].
  - rewrite length_take, Hp, length_seq. reflexivity.
  - eapply (sublist_NoDup _ ranked); [|apply sublist_take]. rewrite Hp. apply NoDup_seq.
  - apply Forall_take. rewrite Hp. apply Forall_forall. intros i Hi.
    apply elem_of_seq in Hi. lia.
Qed.

(** ** One call of [trainer.fit] and of [trainer.test] *)

Lemma run_callbacks_frame model cbs w :
  let r := run_callbacks model cbs w in
  outcome r = inr tt /\ hparams (final r) = hparams w /\
  active_dataset (final r) = active_dataset w /\
  rng (final r) = rng w /\ log (final r) = log w.
Proof.
  cbn zeta. revert w. induction cbs as [|[sd] cbs IH]; intros w; [repeat split|].
  cbn [run_callbacks on_train_start]. rewrite run_bind.
  cbn [load_state_dict modify outcome final visited].
  destruct (IH (set_heap (foldl copy_into (heap w) (zip (m_params model) sd)) w))
    as (Ho & H1 & H2 & H3 & H4).
  repeat split; assumption.
Qed.

Lemma fit_run trainer model dm w :
  let wr := final (run_callbacks model (callbacks trainer) w) in
  let start := read_all (m_params model) (heap wr) in
  let train_set := labelled_items (active_dataset w) in
  let res := training_loop X (rng w 0%nat) (max_epochs trainer) (m_hparams model)
               start train_set in
  let r := fit trainer model dm w in
  outcome r = match res.2 with Some e => inl e | None => inr tt end /\
  hparams (final r) = hparams w /\
  active_dataset (final r) = active_dataset w /\
  rng (final r) = (fun i => rng w (S i)) /\
  log (final r) = log w ++ [EvTrainStart start train_set] /\
  heap (final r) = foldl (fun h p => <[p.1:=p.2]> h) (heap wr) (zip (m_params model) res.1).
Proof.
  cbn zeta.
  destruct (run_callbacks_frame model (callbacks trainer) w) as (Ho & H1 & H2 & H3 & H4).
  unfold fit. rewrite (bind_returns _ _ _ _ Ho).
  set (wr := final (run_callbacks model (callbacks trainer) w)) in *.
  rewrite run_draw, run_get, run_emit.
  unfold store_all. rewrite run_modify.
  cbn [add_log set_rng set_heap hparams rng active_dataset heap log].
  rewrite <- H1, <- H2, <- H3, <- H4.
  destruct (training_loop _ _ _ _ _ _).2; repeat split.
Qed.

Lemma test_run trainer model dm w :
  let r := test trainer model dm w in
  outcome r = match test_loop X (rng w 0%nat) (read_all (m_params model) (heap w)) with
              | Some e => inl e
              | None => inr tt
              end /\
  hparams (final r) = hparams w /\
  active_dataset (final r) = active_dataset w /\
  heap (final r) = heap w /\
  rng (final r) = (fun i => rng w (S i)) /\
  log (final r) = log w ++ [EvTest].
Proof.
  cbn zeta. unfold test. rewrite run_draw, run_get, run_emit.
  cbn [outcome final after_write add_log set_rng set_heap
       hparams rng active_dataset heap log].
  destruct (test_loop _ _ _); repeat split.
Qed.

(** ** One iteration of the loop *)

Lemma iteration_run trainer model dm al_step w :
  let w1 := add_log (EvPrint al_step (n_labelled (active_dataset w))) w in
  let rf := fit trainer model dm w1 in
  let rt := test trainer model dm (final rf) in
  let rs := step trainer model dm (final rt) in
  iteration trainer model dm al_step w =
  match outcome rf with
  | inl e => mkResult (inl e) (final rf) (w1 :: visited rf)
  | inr _ =>
      match outcome rt with
      | inl e => mkResult (inl e) (final rt) (w1 :: visited rf ++ visited rt)
      | inr _ => mkResult (outcome rs) (final rs)
                   (w1 :: visited rf ++ visited rt ++ visited rs)
      end
  end.
Proof.
  cbn zeta. unfold iteration.
  rewrite run_bind. cbn [get outcome final visited].
  rewrite run_bind. cbn [emit modify outcome final visited].
  rewrite run_bind.
  destruct (outcome (fit trainer model dm _)) as [e|[]]; [reflexivity|].
  cbn [outcome final visited].
  rewrite run_bind.
  destruct (outcome (test trainer model dm _)) as [e|[]]; reflexivity.
Qed.

(** What an iteration that returns has done. *)
Lemma iteration_returns trainer model dm al_step w b :
  outcome (iteration trainer model dm al_step w) = inr b ->
  let ds := active_dataset w in
  let w1 := add_log (EvPrint al_step (n_labelled ds)) w in
  let start := read_all (m_params model)
                 (heap (final (run_callbacks model (callbacks trainer) w1))) in
  let trained := read_all (m_params model) (heap (final (fit trainer model dm w1))) in
  let r := iteration trainer model dm al_step w in
  exists outputs picked,
    let to_label := take (Z.to_nat (ndata_to_label trainer)) (heuristic trainer outputs) in
    predict_outputs (rng w 2%nat) (m_hparams model) trained (pool ds) = inr outputs /\
    pool_to_dataset_index ds to_label = Some picked /\
    b = (ndata_to_label trainer <=? Z.of_nat (length (pool ds)))%Z /\
    active_dataset (final r) = mark_labelled ds picked /\
    hparams (final r) = hparams w /\
    log (final r) =
      log w ++ [EvPrint al_step (n_labelled ds); EvTrainStart start (labelled_items ds);
                EvTest; EvPredict (pool ds); EvLabel to_label; EvStep b].
Proof.
  cbn zeta. rewrite iteration_run. cbn zeta.
  set (w1 := add_log _ w).
  pose proof (fit_run trainer model dm w1) as (Hfo & Hfh & Hfd & Hfr & Hfl & _).
  cbn zeta in *.
  destruct (outcome (fit trainer model dm w1)) as [e|[]]; [discriminate|].
  set (wf := final (fit trainer model dm w1)) in *.
  pose proof (test_run trainer model dm wf) as (Hto & Hth & Htd & Hthp & Htr & Htl).
  cbn zeta in *.
  destruct (outcome (test trainer model dm wf)) as [e|[]]; [discriminate|].
  set (wt := final (test trainer model dm wf)) in *.
  cbn [outcome final]. rewrite step_run. cbn zeta.
  rewrite Htd, Hfd, Hthp, Htr, Hfr.
  change (active_dataset w1) with (active_dataset w).
  change (rng w1) with (rng w).
  destruct (predict_outputs _ _ _ _) as [e|outputs] eqn:Ep; [discriminate|].
  destruct (pool_to_dataset_index _ _) as [picked|] eqn:Ei; [|discriminate].
  cbn [outcome final]. intros [= <-].
  exists outputs, picked. repeat split; try assumption.
  - cbn [hparams add_log set_dataset set_rng]. rewrite Hth, Hfh. reflexivity.
  - cbn [log add_log set_dataset set_rng]. rewrite Htl, Hfl. subst w1. cbn [log add_log].
    rewrite <- !app_assoc. reflexivity.
Qed.

(** What an iteration that raises has left: the partition as it found it,
    and no labelling in the log. *)
Lemma iteration_raises trainer model dm al_step w e :
  outcome (iteration trainer model dm al_step w) = inl e ->
  let r := iteration trainer model dm al_step w in
  active_dataset (final r) = active_dataset w /\
  exists evs, log (final r) = log w ++ evs /\
              map phase evs `prefix_of` [0; 1; 2; 3]%nat.
Proof.
  cbn zeta. rewrite iteration_run. cbn zeta.
  set (w1 := add_log _ w).
  pose proof (fit_run trainer model dm w1) as (Hfo & Hfh & Hfd & Hfr & Hfl & _).
  cbn zeta in *.
  assert (Hl1 : log w1 = log w ++ [EvPrint al_step (n_labelled (active_dataset w))])
    by reflexivity.
  assert (Hd1 : active_dataset w1 = active_dataset w) by reflexivity.
  destruct (outcome (fit trainer model dm w1)) as [e1|[]].
  { intros _. cbn [final]. split; [congruence|].
    eexists. rewrite Hfl, Hl1, <- app_assoc. split; [reflexivity|].
    exists [2; 3]%nat. reflexivity. }
  set (wf := final (fit trainer model dm w1)) in *.
  pose proof (test_run trainer model dm wf) as (Hto & Hth & Htd & Hthp & Htr & Htl).
  cbn zeta in *.
  destruct (outcome (test trainer model dm wf)) as [e1|[]].
  { intros _. cbn [final]. split; [congruence|].
    eexists. rewrite Htl, Hfl, Hl1, <- !app_assoc. split; [reflexivity|].
    exists [3]%nat. reflexivity. }
  set (wt := final (test trainer model dm wf)) in *.
  cbn [outcome final]. rewrite step_run. cbn zeta.
  assert (Hlt : log wt = log w ++ [EvPrint al_step (n_labelled (active_dataset w));
                                   EvTrainStart
                                     (read_all (m_params model)
                                        (heap (final (run_callbacks model (callbacks trainer) w1))))
                                     (labelled_items (active_dataset w1)); EvTest]).
  { rewrite Htl, Hfl, Hl1, <- !app_assoc. reflexivity. }
  assert (Hd : active_dataset wt = active_dataset w) by congruence.
  destruct (predict_outputs _ _ _ _) as [e1|outputs].
  { intros _. cbn [final]. split; [exact Hd|].
    eexists. cbn [log add_log set_rng]. rewrite Hlt, <- app_assoc. split; [reflexivity|].
    exists []. reflexivity. }
  destruct (pool_to_dataset_index _ _) as [picked|]; [discriminate|].
  intros _. cbn [final]. split; [exact Hd|].
  eexists. cbn [log add_log set_rng]. rewrite Hlt, <- app_assoc. split; [reflexivity|].
  exists []. reflexivity.
Qed.

(** With services that never raise and a heuristic that ranks, an
    iteration returns. *)
Lemma iteration_succeeds trainer model dm al_step w :
  never_fails X ->
  (forall outputs, heuristic trainer outputs ≡ₚ seq 0 (length outputs)) ->
  exists b, outcome (iteration trainer model dm al_step w) = inr b.
Proof.
  intros Hnf Hrank. rewrite iteration_run. cbn zeta.
  set (w1 := add_log _ w).
  pose proof (fit_run trainer model dm w1) as (Hfo & Hfh & Hfd & Hfr & Hfl & _).
  cbn zeta in *.
  destruct Hnf as (Htrain & Htest & Hpred).
  rewrite Htrain in Hfo. rewrite Hfo.
  set (wf := final (fit trainer model dm w1)) in *.
  pose proof (test_run trainer model dm wf) as (Hto & _).
  cbn zeta in *. rewrite Htest in Hto. rewrite Hto.
  set (wt := final (test trainer model dm wf)) in *.
  cbn [outcome]. rewrite step_run. cbn zeta.
  destruct (predict_outputs_never_fails (rng wt 0%nat) (m_hparams model)
              (read_all (m_params model) (heap wt)) (pool (active_dataset wt)))
    as [outputs Ep]; [repeat split; assumption|].
  rewrite Ep.
  destruct (take_ranking (Z.to_nat (ndata_to_label trainer)) (heuristic trainer outputs)
              (length outputs) (Hrank outputs)) as (_ & _ & Hrange).
  rewrite (predict_outputs_length _ _ _ _ _ Ep) in Hrange.
  destruct (pool_to_dataset_index_in_range _ _ Hrange) as [picked ->].
  eexists. reflexivity.
Qed.

Lemma iteration_sizes trainer model dm al_step w b :
  outcome (iteration trainer model dm al_step w) = inr b ->
  (forall outputs, heuristic trainer outputs ≡ₚ seq 0 (length outputs)) ->
  let ds := active_dataset w in
  let ds' := active_dataset (final (iteration trainer model dm al_step w)) in
  let m := Nat.min (Z.to_nat (ndata_to_label trainer)) (n_unlabelled ds) in
  n_labelled ds' = (n_labelled ds + m)%nat /\
  n_unlabelled ds' = (n_unlabelled ds - m)%nat.
Proof.
  intros Hr Hrank. cbn zeta.
  destruct (iteration_returns _ _ _ _ _ _ Hr) as (outputs & picked & Hp & Hi & _ & Hd & _).
  cbn zeta in *.
  apply predict_outputs_length in Hp.
  destruct (take_ranking (Z.to_nat (ndata_to_label trainer)) (heuristic trainer outputs)
              (length outputs) (Hrank outputs)) as (Hlen & Hnd & _).
  destruct (pool_to_dataset_index_spec _ _ _ Hi) as (Hpl & Hflags & Hpnd).
  assert (Hl : n_labelled (mark_labelled (active_dataset w) picked) =
               (n_labelled (active_dataset w) + length picked)%nat).
  { apply mark_labelled_size; auto. }
  pose proof (sizes_total (active_dataset w)) as Ht.
  pose proof (sizes_total (mark_labelled (active_dataset w) picked)) as Ht'.
  rewrite mark_labelled_length in Ht'.
  rewrite Hd. rewrite Hp in Hlen. unfold n_unlabelled in *. lia.
Qed.



(** C2: an iteration that reaches its labelling adds [min(k, pool)] items to
    the labelled set and takes as many from the pool, [k] being the query
    size the trainer was given and the sizes those before the step. *)
Theorem step_labels_min_k_pool trainer model dm al_step w b :
  heuristic trainer = BALD ->
  (0 <= ndata_to_label trainer)%Z ->
  outcome (iteration trainer model dm al_step w) = inr b ->
  let k := ndata_to_label trainer in
  let labelled := Z.of_nat (n_labelled (active_dataset w)) in
  let pool := Z.of_nat (n_unlabelled (active_dataset w)) in
  let w' := final (iteration trainer model dm al_step w) in
  Z.of_nat (n_labelled (active_dataset w')) = (labelled + Z.min k pool)%Z /\
  Z.of_nat (n_unlabelled (active_dataset w')) = (pool - Z.min k pool)%Z.
Proof.
  intros Hh Hk Hr. cbn zeta.
  destruct (iteration_sizes _ _ _ _ _ _ Hr) as [H1 H2].
  { intros outputs. rewrite Hh. apply BALD_perm. }
  cbn zeta in *. rewrite H1, H2. lia.
Qed.


(** ** The loop *)

Lemma signals_app (l1 l2 : list Event) : signals (l1 ++ l2) = signals l1 ++ signals l2.
Proof. apply omap_app. Qed.

Lemma pool_sizes_app (l1 l2 : list Event) :
  pool_sizes (l1 ++ l2) = pool_sizes l1 ++ pool_sizes l2.
Proof. apply omap_app. Qed.

Lemma printed_app (l1 l2 : list Event) : printed (l1 ++ l2) = printed l1 ++ printed l2.
Proof. apply omap_app. Qed.

Lemma al_loop_run trainer model dm steps :
  never_fails X ->
  (forall outputs, heuristic trainer outputs ≡ₚ seq 0 (length outputs)) ->
  forall w,
    let r := al_loop trainer model dm steps w in
    let rows := trajectory (ndata_to_label trainer) steps
                  (n_labelled (active_dataset w)) (n_unlabelled (active_dataset w)) in
    outcome r = inr tt /\
    hparams (final r) = hparams w /\
    (n_labelled (active_dataset (final r)), n_unlabelled (active_dataset (final r))) =
      final_sizes (ndata_to_label trainer) steps
        (n_labelled (active_dataset w)) (n_unlabelled (active_dataset w)) /\
    exists evs,
      log (final r) = log w ++ evs /\
      printed evs = map (fun row => (row_step row, row_labelled row)) rows /\
      pool_sizes evs = map row_pool rows /\
      signals evs = map row_continue rows.
Proof.
  intros Hnf Hrank. induction steps as [|s steps IH]; intros w; cbn zeta.
  - repeat split. exists []. rewrite app_nil_r. repeat split.
  - destruct (iteration_succeeds trainer model dm s w Hnf Hrank) as [b Hb].
    destruct (iteration_returns _ _ _ _ _ _ Hb)
      as (outputs & picked & _ & _ & Hsc & _ & Hh & Hl).
    destruct (iteration_sizes _ _ _ _ _ _ Hb Hrank) as [Hs1 Hs2].
    cbn zeta in *.
    cbn [al_loop trajectory final_sizes]. rewrite (bind_returns _ _ _ _ Hb).
    cbn [outcome final].
    set (wi := final (iteration trainer model dm s w)) in *.
    assert (Hsc' : (ndata_to_label trainer <=? Z.of_nat (n_unlabelled (active_dataset w)))%Z
                   = b) by (symmetry; exact Hsc).
    rewrite !Hsc'. clear Hsc Hsc'.
    destruct b.
    + destruct (IH wi) as (Ho & Hh' & Hfs & evs & Hl' & Hp & Hps & Hsg).
      cbn zeta in *. rewrite Hs1, Hs2 in Hfs, Hp, Hps, Hsg.
      split; [exact Ho|]. split; [congruence|]. split; [exact Hfs|].
      eexists. split; [rewrite Hl', Hl, <- app_assoc; reflexivity|].
      rewrite printed_app, pool_sizes_app, signals_app, Hp, Hps, Hsg.
      repeat split.
    + cbn [mret M_ret ret outcome final].
      split; [reflexivity|]. split; [exact Hh|]. split; [congruence|].
      eexists. split; [exact Hl|]. repeat split.
Qed.

Lemma trajectory_length k steps l p :
  let rows := trajectory k steps l p in
  (length rows <= length steps)%nat /\
  length rows = match first_false (map row_continue rows) with
                | Some j => Nat.min (length steps) j
                | None => length steps
                end.
Proof.
  cbn zeta. revert l p. induction steps as [|s steps IH]; intros l p; simpl; [auto|].
  destruct (k <=? Z.of_nat p)%Z; simpl.
  - destruct (IH (l + Nat.min (Z.to_nat k) p) (p - Nat.min (Z.to_nat k) p))%nat as [H1 H2].
    split; [lia|]. rewrite H2 at 1.
    destruct (first_false _); simpl; lia.
  - split; lia.
Qed.

Lemma trajectory_signals k steps l p :
  Forall (fun row => row_continue row = (k <=? Z.of_nat (row_pool row))%Z)
    (trajectory k steps l p).
Proof.
  revert l p. induction steps as [|s steps IH]; intros l p; simpl; [constructor|].
  constructor; [reflexivity|]. destruct (k <=? Z.of_nat p)%Z; [apply IH|constructor].
Qed.

Lemma Forall2_rows {A B} (P : A -> B -> Prop) (f : Row -> A) (g : Row -> B) rows :
  Forall (fun row => P (f row) (g row)) rows -> Forall2 P (map f rows) (map g rows).
Proof. induction 1; simpl; constructor; auto. Qed.

(** The loop over [n] steps, on services that never raise. *)
Lemma al_loop_counts trainer model dm n w :
  never_fails X ->
  (forall outputs, heuristic trainer outputs ≡ₚ seq 0 (length outputs)) ->
  let r := al_loop trainer model dm (seq 0 n) w in
  let sig := signals (new_events w r) in
  outcome r = inr tt /\
  (length sig <= n)%nat /\
  length sig = match first_false sig with
               | Some j => Nat.min n j
               | None => n
               end /\
  Forall2 (fun go p => go = (ndata_to_label trainer <=? Z.of_nat p)%Z)
    sig (pool_sizes (new_events w r)).
Proof.
  intros Hnf Hrank. cbn zeta.
  destruct (al_loop_run trainer model dm (seq 0 n) Hnf Hrank w)
    as (Ho & _ & _ & evs & Hl & _ & Hps & Hsg).
  cbn zeta in *. unfold new_events. rewrite Hl, drop_app_length, Hps, Hsg.
  set (rows := trajectory _ _ _ _).
  destruct (trajectory_length (ndata_to_label trainer) (seq 0 n)
              (n_labelled (active_dataset w)) (n_unlabelled (active_dataset w)))
    as [H1 H2].
  cbn zeta in *. fold rows in H1, H2. rewrite length_seq in H1, H2.
  rewrite length_map. repeat split; try assumption.
  apply Forall2_rows. apply trajectory_signals.
Qed.

(** C1: the loop ends, without an error, after at most [AL_STEPS] = 100
    steps, and earlier as soon as [trainer.step] signals a pool smaller than
    the query size: with [sig] the values [trainer.step] returned during the
    loop, the number of steps made is [min(100, position of the first false
    in sig)], and each value is [false] exactly when the pool the step found
    was smaller than [k]. *)
Theorem al_loop_terminates trainer model dm w :
  never_fails X ->
  heuristic trainer = BALD ->
  let r := al_loop trainer model dm (seq 0 AL_STEPS) w in
  let sig := signals (new_events w r) in
  outcome r = inr tt /\
  (length sig <= 100)%nat /\
  length sig = match first_false sig with
               | Some j => Nat.min 100 j
               | None => 100%nat
               end /\
  Forall2 (fun go p => go = (ndata_to_label trainer <=? Z.of_nat p)%Z)
    sig (pool_sizes (new_events w r)).
Proof.
  intros Hnf Hh. apply (al_loop_counts trainer model dm AL_STEPS w Hnf).
  intros outputs. rewrite Hh. apply BALD_perm.
Qed.

(** ** The initial labelling *)

Lemma label_one_run i w :
  (i < n_unlabelled (active_dataset w))%nat ->
  exists item,
    pool (active_dataset w) !! i = Some item /\
    label [i] w =
    mkResult (inr tt)
      (add_log (EvLabel [i])
         (set_dataset (mark_labelled (active_dataset w) [item]) w))
      [add_log (EvLabel [i])
         (set_dataset (mark_labelled (active_dataset w) [item]) w)].
Proof.
  intros Hi. apply lookup_lt_is_Some in Hi as [item Hitem]. exists item.
  split; [exact Hitem|]. unfold label. rewrite run_get.
  unfold pool_to_dataset_index. cbn [mapM]. rewrite Hitem. reflexivity.
Qed.

Lemma label_randomly_ok n w :
  (n <= n_unlabelled (active_dataset w))%nat ->
  let r := label_randomly n w in
  outcome r = inr tt /\
  hparams (final r) = hparams w /\
  heap (final r) = heap w /\
  rng (final r) = (fun i => rng w (n + i)%nat) /\
  n_labelled (active_dataset (final r)) = (n_labelled (active_dataset w) + n)%nat /\
  n_unlabelled (active_dataset (final r)) = (n_unlabelled (active_dataset w) - n)%nat.
Proof.
  cbn zeta. revert w. induction n as [|n IH]; intros w Hn.
  - cbn. repeat split; lia.
  - cbn [label_randomly]. rewrite run_get.
    destruct (Nat.eqb_spec (n_unlabelled (active_dataset w)) 0) as [H0|H0]; [lia|].
    rewrite run_draw.
    set (w1 := set_rng _ w).
    set (i := (rng w 0 mod n_unlabelled (active_dataset w))%nat).
    assert (Hi : (i < n_unlabelled (active_dataset w1))%nat).
    { subst i w1. cbn [active_dataset set_rng]. apply Nat.mod_upper_bound. exact H0. }
    destruct (label_one_run i w1 Hi) as (item & Hitem & Hrun).
    assert (Hflag : active_dataset w !! item = Some false)
      by (eapply pool_flags, Hitem).
    rewrite run_bind, Hrun. cbn [outcome final visited after_write].
    set (w2 := add_log _ _).
    assert (Hl2 : n_labelled (active_dataset w2) = S (n_labelled (active_dataset w))).
    { subst w2 w1. cbn [active_dataset add_log set_dataset set_rng].
      rewrite mark_labelled_size; [simpl; lia|apply NoDup_singleton|].
      constructor; [exact Hflag|constructor]. }
    assert (Hlen2 : length (active_dataset w2) = length (active_dataset w)).
    { subst w2 w1. cbn [active_dataset add_log set_dataset set_rng].
      apply mark_labelled_length. }
    pose proof (sizes_total (active_dataset w)) as Ht.
    pose proof (sizes_total (active_dataset w2)) as Ht2.
    destruct (IH w2) as (Ho & Hh & Hhp & Hr & Hs1 & Hs2); [lia|].
    rewrite Ho, Hh, Hhp, Hr, Hs1, Hs2. repeat split; lia.
Qed.

(** Events of the initial labelling are labellings. *)
Lemma label_randomly_log n w :
  exists evs, log (final (label_randomly n w)) = log w ++ evs /\
              Forall (fun ev => phase ev = 4%nat) evs.
Proof.
  revert w. induction n as [|n IH]; intros w.
  - exists []. rewrite app_nil_r. split; [reflexivity|constructor].
  - cbn [label_randomly]. rewrite run_get.
    destruct (_ =? _)%nat.
    { exists []. rewrite app_nil_r. split; [reflexivity|constructor]. }
    rewrite run_draw. set (w1 := set_rng _ w). cbn [final after_write].
    rewrite run_label. cbn [active_dataset set_rng].
    destruct (pool_to_dataset_index _ _) as [items|].
    + cbn zeta. cbn [final after_write]. set (w2 := add_log _ _).
      destruct (IH w2) as (evs & Hl & Hall). eexists. rewrite Hl.
      subst w2 w1. cbn [log add_log set_dataset set_rng]. rewrite <- app_assoc.
      split; [reflexivity|]. constructor; [reflexivity|exact Hall].
    + exists []. rewrite app_nil_r. split; [reflexivity|constructor].
Qed.

Lemma labels_unobserved (evs : list Event) :
  Forall (fun ev => phase ev = 4%nat) evs ->
  printed evs = [] /\ pool_sizes evs = [] /\ signals evs = [] /\ train_starts evs = [].
Proof.
  induction 1 as [|ev evs Hev _ (H1 & H2 & H3 & H4)]; [repeat split|].
  destruct ev; try discriminate. repeat split; assumption.
Qed.

(** ** The cells before the loop *)

Lemma outcome_after_write {A} w' (r : Result A) : outcome (after_write w' r) = outcome r.
Proof. reflexivity. Qed.

Lemma final_after_write {A} w' (r : Result A) : final (after_write w' r) = final r.
Proof. reflexivity. Qed.

Lemma bind_returns_outcome {A B} (m : M A) (f : A -> M B) w a :
  outcome (m w) = inr a -> outcome ((m ≫= f) w) = outcome (f a (final (m w))).
Proof. intros H. rewrite (bind_returns _ _ _ _ H). reflexivity. Qed.

Lemma bind_returns_final {A B} (m : M A) (f : A -> M B) w a :
  outcome (m w) = inr a -> final ((m ≫= f) w) = final (f a (final (m w))).
Proof. intros H. rewrite (bind_returns _ _ _ _ H). reflexivity. Qed.

Lemma run_VGG16 {A} (h : HParams) (f : Module -> M A) w :
  (VGG16 (asdict h) ≫= f) w =
  after_write (set_rng (fun i => rng w (S i)) w)
    (after_write
       (set_heap (heap w ++ vgg16_init X (rng w 0%nat) (num_classes h))
          (set_rng (fun i => rng w (S i)) w))
       (f {| m_hparams := asdict h;
             m_params := seq (length (heap w))
                           (length (vgg16_init X (rng w 0%nat) (num_classes h))) |}
          (set_heap (heap w ++ vgg16_init X (rng w 0%nat) (num_classes h))
             (set_rng (fun i => rng w (S i)) w)))).
Proof.
  assert (E : VGG16 (asdict h) w =
              mkResult
                (inr {| m_hparams := asdict h;
                        m_params := seq (length (heap w))
                                      (length (vgg16_init X (rng w 0%nat) (num_classes h))) |})
                (set_heap (heap w ++ vgg16_init X (rng w 0%nat) (num_classes h))
                   (set_rng (fun i => rng w (S i)) w))
                [set_rng (fun i => rng w (S i)) w;
                 set_heap (heap w ++ vgg16_init X (rng w 0%nat) (num_classes h))
                   (set_rng (fun i => rng w (S i)) w)]) by reflexivity.
  rewrite run_bind, E. reflexivity.
Qed.

Lemma run_deepcopy {A} sd (f : list nat -> M A) w :
  (deepcopy sd ≫= f) w =
  after_write (set_heap (heap w ++ read_all sd (heap w)) w)
    (f (seq (length (heap w)) (length (read_all sd (heap w))))
       (set_heap (heap w ++ read_all sd (heap w)) w)).
Proof.
  assert (E : deepcopy sd w =
              mkResult (inr (seq (length (heap w)) (length (read_all sd (heap w)))))
                (set_heap (heap w ++ read_all sd (heap w)) w)
                [set_heap (heap w ++ read_all sd (heap w)) w]) by reflexivity.
  rewrite run_bind, E. reflexivity.
Qed.

(** The cells between the initial labelling and the loop, run from [wl]:
    the model, the copy of its state dict, the trainer, and the world the
    loop starts in. *)
Lemma setup_run (steps : list nat) dm wl :
  let vals := vgg16_init X (rng wl 0%nat) (num_classes (hparams wl)) in
  let params := seq (length (heap wl)) (length vals) in
  let h1 := heap wl ++ vals in
  let copies := read_all params h1 in
  let snapshot := seq (length h1) (length copies) in
  let model := {| m_hparams := asdict (hparams wl); m_params := params |} in
  let trainer := {| heuristic := BALD;
                    ndata_to_label := query_size (hparams wl);
                    max_epochs := 10%Z;
                    default_root_dir := data_root (hparams wl);
                    t_gpus := gpus (hparams wl);
                    callbacks := [ResetCallback snapshot] |} in
  let w3 := set_heap (h1 ++ copies) (set_heap h1 (set_rng (fun i => rng wl (S i)) wl)) in
  let rest :=
    (w ← get;
     model ← VGG16 (asdict (hparams w));
     w ← get;
     sd ← state_dict model;
     snapshot ← deepcopy sd;
     let trainer := {| heuristic := BALD;
                       ndata_to_label := query_size (hparams w);
                       max_epochs := 10%Z;
                       default_root_dir := data_root (hparams w);
                       t_gpus := gpus (hparams w);
                       callbacks := [ResetCallback snapshot] |} in
     al_loop trainer model dm steps) in
  outcome (rest wl) = outcome (al_loop trainer model dm steps w3) /\
  final (rest wl) = final (al_loop trainer model dm steps w3).
Proof.
  cbn zeta. rewrite run_get, run_VGG16.
  rewrite !outcome_after_write, !final_after_write.
  rewrite run_get. unfold state_dict. rewrite run_ret, run_deepcopy.
  rewrite !outcome_after_write, !final_after_write.
  split; reflexivity.
Qed.

Lemma experiment_run dm w :
  outcome (label_randomly 10 w) = inr tt ->
  let wl := final (label_randomly 10 w) in
  let vals := vgg16_init X (rng wl 0%nat) (num_classes (hparams wl)) in
  let params := seq (length (heap wl)) (length vals) in
  let h1 := heap wl ++ vals in
  let copies := read_all params h1 in
  let snapshot := seq (length h1) (length copies) in
  let model := {| m_hparams := asdict (hparams wl); m_params := params |} in
  let trainer := {| heuristic := BALD;
                    ndata_to_label := query_size (hparams wl);
                    max_epochs := 10%Z;
                    default_root_dir := data_root (hparams wl);
                    t_gpus := gpus (hparams wl);
                    callbacks := [ResetCallback snapshot] |} in
  let w3 := set_heap (h1 ++ copies) (set_heap h1 (set_rng (fun i => rng wl (S i)) wl)) in
  outcome (experiment dm w) = outcome (al_loop trainer model dm (seq 0 AL_STEPS) w3) /\
  final (experiment dm w) = final (al_loop trainer model dm (seq 0 AL_STEPS) w3).
Proof.
  intros Hl. unfold experiment.
  rewrite (bind_returns_outcome _ _ _ _ Hl), (bind_returns_final _ _ _ _ Hl).
  apply (setup_run (seq 0 AL_STEPS) dm (final (label_randomly 10 w))).
Qed.

(** ** The whole notebook on sizes *)

Lemma indices_where_replicate n s :
  indices_where true (replicate n false) s = [] /\
  length (indices_where false (replicate n false) s) = n.
Proof.
  revert s. induction n as [|n IH]; intros s; simpl; [auto|].
  destruct (IH (S s)) as [H1 H2]. split; [exact H1|]. simpl. rewrite H2. reflexivity.
Qed.

Lemma fresh_dataset_sizes n :
  n_labelled (replicate n false) = 0%nat /\ n_unlabelled (replicate n false) = n.
Proof.
  unfold n_labelled, n_unlabelled, labelled_items, pool.
  destruct (indices_where_replicate n 0) as [-> ->]. auto.
Qed.

(** The notebook on services that never raise, over [n >= 10] items: it
    returns, and what it printed, the pools it predicted over, the signals
    and the sizes it ends with are those of the loop on sizes, started from
    10 labelled items with the default query size. *)
Lemma notebook_sizes r :
  never_fails X ->
  (10 <= cifar10_train_len X)%nat ->
  let res := notebook (startup r) in
  let n := cifar10_train_len X in
  let rows := trajectory 100%Z (seq 0 AL_STEPS) 10 (n - 10) in
  outcome res = inr tt /\
  printed (log (final res)) = map (fun row => (row_step row, row_labelled row)) rows /\
  pool_sizes (log (final res)) = map row_pool rows /\
  signals (log (final res)) = map row_continue rows /\
  (n_labelled (active_dataset (final res)), n_unlabelled (active_dataset (final res))) =
    final_sizes 100%Z (seq 0 AL_STEPS) 10 (n - 10).
Proof.
  intros Hnf Hn. cbn zeta. rewrite notebook_run. cbn zeta. cbn [outcome final].
  set (w1 := set_dataset _ (startup r)).
  set (dm := mkDataModule _).
  destruct (fresh_dataset_sizes (cifar10_train_len X)) as [Hl0 Hp0].
  assert (Hd1 : active_dataset w1 = replicate (cifar10_train_len X) false) by reflexivity.
  destruct (label_randomly_ok 10 w1) as (Ho & Hh & _ & _ & Hs1 & Hs2).
  { rewrite Hd1, Hp0. exact Hn. }
  cbn zeta in *. rewrite Hd1, Hl0 in Hs1. rewrite Hd1, Hp0 in Hs2.
  destruct (label_randomly_log 10 w1) as (evsL & HlogL & HallL).
  destruct (labels_unobserved evsL HallL) as (Hpr & Hps & Hsg & _).
  destruct (experiment_run dm w1 Ho) as [Heo Hef]. cbn zeta in *.
  rewrite Heo, Hef. clear Heo Hef.
  set (wl := final (label_randomly 10 w1)) in *.
  set (model := mkModule _ _).
  set (trainer := mkTrainer _ _ _ _ _ _).
  set (w3 := set_heap _ _).
  assert (Hk : ndata_to_label trainer = 100%Z).
  { subst trainer. cbn [ndata_to_label]. rewrite Hh. reflexivity. }
  assert (Hd3 : active_dataset w3 = active_dataset wl) by reflexivity.
  assert (Hl3 : log w3 = evsL) by (change (log w3) with (log wl); exact HlogL).
  destruct (al_loop_run trainer model dm (seq 0 AL_STEPS) Hnf) with (w := w3)
    as (Hlo & _ & Hfs & evs & Hlog & Hp & Hq & Hs).
  { intros outputs. apply BALD_perm. }
  cbn zeta in *. rewrite Hd3, Hs1, Hs2, Hk in Hfs, Hp, Hq, Hs. simpl plus in *.
  split; [exact Hlo|].
  rewrite Hlog, Hl3, printed_app, pool_sizes_app, signals_app, Hpr, Hps, Hsg, Hp, Hq, Hs.
  repeat split. exact Hfs.
Qed.

(** C5: over a dataset of 1000 items, with the default query size 100, the
    budget of 100 steps and 10 items labelled at random first: the first
    step finds 10 labelled items and a pool of 990 and leaves 110 and 890, as
    the second step finds them; the steps go on in hundreds; the tenth finds
    a pool of 90, labels it and signals the end, so that the loop makes 10
    steps, not 100, and ends with 1000 labelled items and an empty pool. *)
Theorem end_to_end_1000 (r : nat -> nat) :
  never_fails X ->
  cifar10_train_len X = 1000%nat ->
  let res := notebook (startup r) in
  outcome res = inr tt /\
  printed (log (final res)) =
    [(0, 10); (1, 110); (2, 210); (3, 310); (4, 410); (5, 510); (6, 610); (7, 710);
     (8, 810); (9, 910)]%nat /\
  pool_sizes (log (final res)) =
    [990; 890; 790; 690; 590; 490; 390; 290; 190; 90]%nat /\
  signals (log (final res)) =
    [true; true; true; true; true; true; true; true; true; false] /\
  n_labelled (active_dataset (final res)) = 1000%nat /\
  n_unlabelled (active_dataset (final res)) = 0%nat.
Proof.
  intros Hnf Hlen. cbn zeta.
  destruct (notebook_sizes r Hnf) as (Ho & Hp & Hq & Hs & Hfs); [lia|].
  cbn zeta in *. rewrite Hlen in Hp, Hq, Hs, Hfs.
  assert (Et : trajectory 100%Z (seq 0 AL_STEPS) 10 (1000 - 10) =
               [mkRow 0 10 990 true; mkRow 1 110 890 true; mkRow 2 210 790 true;
                mkRow 3 310 690 true; mkRow 4 410 590 true; mkRow 5 510 490 true;
                mkRow 6 610 390 true; mkRow 7 710 290 true; mkRow 8 810 190 true;
                mkRow 9 910 90 false]) by (vm_compute; reflexivity).
  assert (Ef : final_sizes 100%Z (seq 0 AL_STEPS) 10 (1000 - 10) = (1000, 0)%nat)
    by (vm_compute; reflexivity).
  rewrite Et in Hp, Hq, Hs. rewrite Ef in Hfs. injection Hfs as Hf1 Hf2.
  repeat split; assumption.
Qed.

(** ** A failing phase *)

Lemma run_callbacks_heap model cbs w :
  heap (final (run_callbacks model cbs w)) = reset_heap model cbs (heap w).
Proof.
  revert w. induction cbs as [|[sd] cbs IH]; intros w; [reflexivity|].
  cbn [run_callbacks on_train_start]. unfold load_state_dict.
  rewrite run_modify, final_after_write, IH. reflexivity.
Qed.

(** A failing phase makes the body of the loop raise: nothing in the body
    handles the exception of the training, of the test or of the
    prediction.  The events of the iteration stop at the failing phase. *)
Lemma iteration_phase_failure trainer model dm al_step w e n :
  phase_failure trainer model w e n ->
  let r := iteration trainer model dm al_step w in
  outcome r = inl e /\
  active_dataset (final r) = active_dataset w /\
  exists evs, log (final r) = log w ++ evs /\ map phase evs = seq 0 (S n).
Proof.
  intros Hfail. cbn zeta. rewrite iteration_run. cbn zeta.
  set (w1 := add_log _ w).
  pose proof (fit_run trainer model dm w1) as (Hfo & _ & Hfd & Hfr & Hfl & Hfh).
  cbn zeta in *.
  rewrite run_callbacks_heap in Hfo, Hfl, Hfh.
  change (heap w1) with (heap w) in *. change (rng w1) with (rng w) in *.
  change (active_dataset w1) with (active_dataset w) in *.
  fold (training_of trainer model w) in Hfo, Hfh.
  assert (Hl1 : log w1 = log w ++ [EvPrint al_step (n_labelled (active_dataset w))])
    by reflexivity.
  rewrite Hl1, <- app_assoc in Hfl. cbn [app] in Hfl.
  set (wf := final (fit trainer model dm w1)) in *.
  assert (Hwf : read_all (m_params model) (heap wf) = trained_weights trainer model w).
  { rewrite Hfh. reflexivity. }
  pose proof (test_run trainer model dm wf) as (Hto & _ & Htd & Hth & Htr & Htl).
  cbn zeta in *. rewrite Hwf, Hfr in Hto. rewrite Hfl, <- app_assoc in Htl.
  cbn [app] in Htl.
  set (wt := final (test trainer model dm wf)) in *.
  assert (Hdt : active_dataset wt = active_dataset w) by congruence.
  destruct Hfail as [Htrain|Htrain Htest|Htrain Htest Hpred].
  - rewrite Htrain in Hfo. rewrite Hfo. cbn [outcome final].
    split; [reflexivity|]. split; [exact Hfd|].
    eexists. split; [exact Hfl|reflexivity].
  - rewrite Htrain in Hfo. rewrite Hfo. rewrite Htest in Hto. rewrite Hto.
    cbn [outcome final]. split; [reflexivity|]. split; [exact Hdt|].
    eexists. split; [exact Htl|reflexivity].
  - rewrite Htrain in Hfo. rewrite Hfo. rewrite Htest in Hto. rewrite Hto.
    cbn [outcome final]. rewrite step_run. cbn zeta.
    rewrite Hdt, Hth, Hwf, Htr, Hfr, Hpred. cbn [outcome final].
    split; [reflexivity|]. split; [exact Hdt|].
    eexists. cbn [log add_log set_rng]. rewrite Htl, <- app_assoc.
    split; [reflexivity|reflexivity].
Qed.

(** C7: when a phase of an iteration the loop has entered fails (the
    training epochs or the evaluation stop on an exception, or the
    uncertainty computation of a pool item returns one), the body of the loop
    raises that exception and so does the loop: it stops in the world of the
    failure, nothing runs after the failing phase (no handler, no second
    attempt: the events of the iteration are its phases up to the failing
    one, each once, without a labelling), and the partition is the one the
    iteration found. *)
Theorem failure_aborts_run trainer model dm steps w al_step w' e n :
  enters trainer model dm steps w al_step w' ->
  phase_failure trainer model w' e n ->
  let r := al_loop trainer model dm steps w in
  let ri := iteration trainer model dm al_step w' in
  outcome ri = inl e /\
  outcome r = inl e /\
  final r = final ri /\
  active_dataset (final r) = active_dataset w' /\
  map phase (new_events w' r) = seq 0 (S n).
Proof.
  intros Hin Hfail. cbn zeta.
  destruct (iteration_phase_failure trainer model dm al_step w' e n Hfail)
    as (He & Hd & evs & Hl & Hp).
  cbn zeta in *.
  assert (Hloop : outcome (al_loop trainer model dm steps w) = inl e /\
                  final (al_loop trainer model dm steps w) =
                  final (iteration trainer model dm al_step w')).
  { induction Hin as [s rest w|s0 rest w s w' Hok Hin IH].
    - cbn [al_loop]. rewrite (bind_raises _ _ _ _ He). split; reflexivity.
    - cbn [al_loop]. rewrite (bind_returns _ _ _ _ Hok). cbn [outcome final].
      apply IH; assumption. }
  destruct Hloop as [Ho Hf].
  split; [exact He|]. split; [exact Ho|]. split; [exact Hf|].
  split; [rewrite Hf; exact Hd|].
  unfold new_events. rewrite Hf, Hl, drop_app_length. exact Hp.
Qed.

(** ** The weights a training starts from *)

Lemma read_all_Forall2 (h : list (Tensor X)) ss vs :
  Forall2 (fun s v => h !! s = Some v) ss vs -> read_all ss h = vs.
Proof.
  unfold read_all. induction 1 as [|s v ss vs Hs _ IH]; [reflexivity|].
  cbn. rewrite Hs. cbn. f_equal. exact IH.
Qed.

Lemma Forall2_fresh (h vals : list (Tensor X)) :
  Forall2 (fun s v => (h ++ vals) !! s = Some v) (seq (length h) (length vals)) vals.
Proof.
  revert h. induction vals as [|v vals IH]; intros h; [constructor|].
  cbn [length seq]. constructor.
  - rewrite lookup_app_r by lia. rewrite Nat.sub_diag. reflexivity.
  - specialize (IH (h ++ [v])). rewrite length_app, <- app_assoc in IH.
    cbn [length app] in IH. rewrite Nat.add_1_r in IH. exact IH.
Qed.



(** The optimiser writes to the parameters only. *)
Lemma foldl_store_frame ps : forall vals (h : list (Tensor X)),
  let h' := foldl (fun h p => <[p.1:=p.2]> h) h (zip ps vals) in
  length h' = length h /\ (forall l, l ∉ ps -> h' !! l = h !! l).
Proof.
  induction ps as [|p ps IH]; intros vals h; cbn zeta; [auto|].
  destruct vals as [|v vals]; [auto|]. cbn [zip zip_with foldl fst snd].
  destruct (IH vals (<[p:=v]> h)) as [H1 H2]. cbn zeta in *.
  rewrite length_insert in H1. split; [exact H1|].
  intros l Hl. apply not_elem_of_cons in Hl as [Hne Hl].
  rewrite (H2 l Hl). apply list_lookup_insert_ne. auto.
Qed.










(** ** The configuration and the step budget *)

Lemma phases_before_step (evs : list Event) :
  map phase evs `prefix_of` [0; 1; 2; 3]%nat -> signals evs = [].
Proof.
  intros [k Hk].
  assert (Hall : Forall (fun n => n <> 5%nat) (map phase evs)).
  { assert (H : Forall (fun n => n <> 5%nat) (map phase evs ++ k)).
    { rewrite <- Hk. repeat constructor; discriminate. }
    apply Forall_app in H as [H _]. exact H. }
  clear Hk. induction evs as [|ev evs IH]; [reflexivity|].
  cbn [map] in Hall. apply Forall_cons in Hall as [Hev Hall].
  destruct ev; cbn; try (apply IH, Hall). cbn in Hev. congruence.
Qed.

Lemma iteration_signals trainer model dm al_step w :
  exists evs, log (final (iteration trainer model dm al_step w)) = log w ++ evs /\
              (length (signals evs) <= 1)%nat.
Proof.
  destruct (outcome (iteration trainer model dm al_step w)) as [e|b] eqn:Ho.
  - destruct (iteration_raises _ _ _ _ _ _ Ho) as (_ & evs & Hl & Hp). cbn zeta in *.
    exists evs. split; [exact Hl|]. rewrite (phases_before_step _ Hp). simpl. lia.
  - destruct (iteration_returns _ _ _ _ _ _ Ho) as (outputs & picked & _ & _ & _ & _ & _ & Hl).
    cbn zeta in *. eexists. split; [exact Hl|]. simpl. lia.
Qed.

Lemma al_loop_bounded trainer model dm steps w :
  exists evs, log (final (al_loop trainer model dm steps w)) = log w ++ evs /\
              (length (signals evs) <= length steps)%nat.
Proof.
  revert w. induction steps as [|s steps IH]; intros w.
  - exists []. rewrite app_nil_r. split; [reflexivity|]. simpl. lia.
  - destruct (iteration_signals trainer model dm s w) as (evs & Hl & Hs).
    cbn [al_loop]. rewrite run_bind.
    destruct (outcome (iteration trainer model dm s w)) as [e|[]]; cbn [final].
    + exists evs. split; [exact Hl|]. simpl. lia.
    + destruct (IH (final (iteration trainer model dm s w))) as (evs' & Hl' & Hs').
      exists (evs ++ evs'). rewrite Hl', Hl, <- app_assoc. split; [reflexivity|].
      rewrite signals_app, length_app. simpl. lia.
    + exists evs. split; [exact Hl|]. simpl. lia.
Qed.

(** C6, as amended: the configuration is a flat record of eight named
    fields, among them the batch size, the learning rate, the query size,
    the number of Monte-Carlo iterations and the replication flag; the step
    budget is not one of them but the constant [AL_STEPS] = 100 of the loop
    cell, and the loop makes at most 100 steps whatever the record holds. *)
Theorem hparams_fields_and_budget :
  (forall h, map fst (asdict h) =
             ["batch_size"; "data_root"; "num_classes"; "learning_rate"; "query_size";
              "iterations"; "replicate_in_memory"; "gpus"]%string) /\
  AL_STEPS = 100%nat /\
  (forall trainer model dm w,
      (length (signals (new_events w (al_loop trainer model dm (seq 0 AL_STEPS) w)))
       <= 100)%nat).
Proof.
  split; [reflexivity|]. split; [reflexivity|].
  intros trainer model dm w.
  destruct (al_loop_bounded trainer model dm (seq 0 AL_STEPS) w) as (evs & Hl & Hs).
  unfold new_events. rewrite Hl, drop_app_length. rewrite length_seq in Hs. exact Hs.
Qed.

(** * Further properties of the cells *)

(** ** The copy of the state dict *)

Lemma Forall2_transfer {A B} (P Q : A -> B -> Prop) l k :
  Forall2 P l k -> (forall a b, a ∈ l -> P a b -> Q a b) -> Forall2 Q l k.
Proof.
  induction 1 as [|a b l k Hab _ IH]; intros HPQ; constructor.
  - apply HPQ; [left|exact Hab].
  - apply IH. intros a' b' Ha'. apply HPQ. right. exact Ha'.
Qed.

Lemma read_all_ext (h h' : list (Tensor X)) locs :
  (forall l, l ∈ locs -> h' !! l = h !! l) -> read_all locs h' = read_all locs h.
Proof.
  unfold read_all. induction locs as [|l locs IH]; intros H; [reflexivity|].
  cbn. rewrite (H l) by left. rewrite IH; [reflexivity|].
  intros l' Hl'. apply H. right. exact Hl'.
Qed.

Lemma copy_run model w :
  (sd ← state_dict model; deepcopy sd) w =
  mkResult
    (inr (seq (length (heap w)) (length (read_all (m_params model) (heap w)))))
    (set_heap (heap w ++ read_all (m_params model) (heap w)) w)
    [set_heap (heap w ++ read_all (m_params model) (heap w)) w].
Proof. unfold state_dict. rewrite run_ret. reflexivity. Qed.

(** X4: [copy.deepcopy(model.state_dict())] gives entries of its own: they
    hold the contents of the module's parameters, none of them is a
    parameter, the parameters are as they were, and whatever is later
    written into the parameters in place leaves what the copy holds
    untouched. *)
Theorem deepcopy_independent (model : Module) (w : World) (vals : list (Tensor X)) :
  Forall (fun l => (l < length (heap w))%nat) (m_params model) ->
  let r := (sd ← state_dict model; deepcopy sd) w in
  exists snapshot,
    outcome r = inr snapshot /\
    read_all snapshot (heap (final r)) = read_all (m_params model) (heap w) /\
    (forall l, l ∈ snapshot -> l ∉ m_params model) /\
    read_all (m_params model) (heap (final r)) = read_all (m_params model) (heap w) /\
    read_all snapshot (heap (final (store_all (m_params model) vals (final r))))
    = read_all (m_params model) (heap w).
Proof.
  intros Hvalid. cbn zeta. rewrite copy_run. cbn [outcome final].
  set (copies := read_all (m_params model) (heap w)).
  set (snapshot := seq (length (heap w)) (length copies)).
  assert (Hdis : forall l, l ∈ snapshot -> l ∉ m_params model).
  { intros l Hl Hin. apply elem_of_seq in Hl. rewrite Forall_forall in Hvalid.
    specialize (Hvalid l Hin). lia. }
  exists snapshot. split; [reflexivity|]. cbn [heap set_heap].
  split; [apply read_all_Forall2, Forall2_fresh|]. split; [exact Hdis|]. split.
  - apply read_all_ext. intros l Hl. apply lookup_app_l.
    rewrite Forall_forall in Hvalid. apply Hvalid, Hl.
  - unfold store_all. cbn [modify final heap set_heap].
    destruct (foldl_store_frame (m_params model) vals (heap w ++ copies)) as [_ Hfr].
    cbn zeta in Hfr. apply read_all_Forall2.
    eapply Forall2_transfer; [apply (Forall2_fresh (heap w) copies)|].
    intros s v Hs Hv. cbn beta in *. rewrite Hfr; [exact Hv|]. apply Hdis, Hs.
Qed.

Lemma foldl_copy_alias (ps : list nat) (h : list (Tensor X)) :
  foldl copy_into h (zip ps ps) = h.
Proof.
  revert h. induction ps as [|p ps IH]; intros h; [reflexivity|].
  cbn [zip zip_with foldl]. unfold copy_into at 2. cbn [fst snd].
  destruct (h !! p) as [v|] eqn:E; [|apply IH].
  rewrite (list_insert_id h p v E). apply IH.
Qed.

(** X5: loading into a module its own [state_dict()] changes nothing: the
    entries are the parameters themselves, so every tensor is as it was. *)
Theorem load_own_state_dict (model : Module) (w : World) :
  let r := (sd ← state_dict model; load_state_dict model sd) w in
  outcome r = inr tt /\ heap (final r) = heap w /\
  active_dataset (final r) = active_dataset w /\ log (final r) = log w.
Proof.
  cbn zeta. unfold state_dict. rewrite run_ret. unfold load_state_dict.
  cbn [modify outcome final heap set_heap active_dataset log].
  rewrite foldl_copy_alias. repeat split.
Qed.

(** X6: a trainer whose [ResetCallback] is given [model.state_dict()]
    without the deep copy resets nothing: its training starts from the
    weights the module holds when it is called, those an earlier training
    left. *)
Theorem reset_without_copy_keeps_weights trainer model dm (w : World) :
  callbacks trainer = [ResetCallback (m_params model)] ->
  log (final (fit trainer model dm w)) =
  log w ++ [EvTrainStart (read_all (m_params model) (heap w))
              (labelled_items (active_dataset w))].
Proof.
  intros Hcb.
  pose proof (fit_run trainer model dm w) as (_ & _ & _ & _ & Hl & _). cbn zeta in Hl.
  rewrite Hcb in Hl.
  change (heap (final (run_callbacks model [ResetCallback (m_params model)] w)))
    with (foldl copy_into (heap w) (zip (m_params model) (m_params model))) in Hl.
  rewrite foldl_copy_alias in Hl. exact Hl.
Qed.

(** ** The shape of the loop's log *)

Lemma step_events trainer model dm w :
  let r := step trainer model dm w in
  exists evs,
    log (final r) = log w ++ evs /\
    Forall (fun ev => (3 <= phase ev)%nat) evs /\
    match outcome r with
    | inr b => signals evs = [b] /\ last evs = Some (EvStep b)
    | inl _ => signals evs = []
    end.
Proof.
  cbn zeta. rewrite step_run. cbn zeta.
  destruct (predict_outputs _ _ _ _) as [e|outputs].
  { exists [EvPredict (pool (active_dataset w))]. cbn [outcome final log add_log set_rng].
    split; [reflexivity|]. split; [|reflexivity]. repeat constructor. }
  destruct (pool_to_dataset_index _ _) as [picked|].
  - eexists. cbn [outcome final log add_log set_dataset set_rng].
    rewrite <- !app_assoc. split; [reflexivity|].
    split; [|split; reflexivity]. repeat constructor; cbn; lia.
  - exists [EvPredict (pool (active_dataset w))]. cbn [outcome final log add_log set_rng].
    split; [reflexivity|]. split; [|reflexivity]. repeat constructor.
Qed.

Lemma iteration_events trainer model dm al_step w :
  let r := iteration trainer model dm al_step w in
  let ds := active_dataset w in
  exists start evs,
    log (final r) =
      log w ++ EvPrint al_step (n_labelled ds) :: EvTrainStart start (labelled_items ds) :: evs /\
    Forall (fun ev => (2 <= phase ev)%nat) evs /\
    match outcome r with
    | inr b => signals evs = [b] /\ last evs = Some (EvStep b)
    | inl _ => signals evs = []
    end.
Proof.
  cbn zeta. rewrite iteration_run. cbn zeta.
  set (w1 := add_log _ w).
  pose proof (fit_run trainer model dm w1) as (_ & _ & Hfd & _ & Hfl & _).
  cbn zeta in *.
  assert (Hl1 : log w1 = log w ++ [EvPrint al_step (n_labelled (active_dataset w))])
    by reflexivity.
  rewrite Hl1, <- app_assoc in Hfl. cbn [app] in Hfl.
  change (active_dataset w1) with (active_dataset w) in Hfl.
  destruct (outcome (fit trainer model dm w1)) as [e|[]].
  { cbn [outcome final]. eexists _, []. split; [exact Hfl|]. split; [constructor|reflexivity]. }
  set (wf := final (fit trainer model dm w1)) in *.
  pose proof (test_run trainer model dm wf) as (_ & _ & _ & _ & _ & Htl).
  cbn zeta in *. rewrite Hfl, <- app_assoc in Htl. cbn [app] in Htl.
  destruct (outcome (test trainer model dm wf)) as [e|[]].
  { cbn [outcome final]. eexists _, [EvTest]. split; [exact Htl|].
    split; [repeat constructor|reflexivity]. }
  set (wt := final (test trainer model dm wf)) in *.
  cbn [outcome final].
  destruct (step_events trainer model dm wt) as (evs & Hsl & Hph & Hout). cbn zeta in *.
  eexists _, (EvTest :: evs). split.
  - rewrite Hsl, Htl, <- app_assoc. reflexivity.
  - split.
    + constructor; [cbn; lia|]. eapply Forall_impl; [exact Hph|]. cbn. intros; lia.
    + destruct (outcome (step trainer model dm wt)) as [e|b].
      * exact Hout.
      * destruct Hout as [Hs Hlast]. split; [exact Hs|].
        rewrite last_cons, Hlast. reflexivity.
Qed.

Lemma later_phases_unprinted (evs : list Event) :
  Forall (fun ev => (2 <= phase ev)%nat) evs -> printed evs = [] /\ train_sets evs = [].
Proof.
  induction 1 as [|ev evs Hev _ [H1 H2]]; [split; reflexivity|].
  destruct ev; cbn in Hev; try lia; split; assumption.
Qed.

Lemma signals_head s n start items (l : list Event) :
  signals (EvPrint s n :: EvTrainStart start items :: l) = signals l.
Proof. reflexivity. Qed.

Lemma al_loop_signals trainer model dm steps w :
  let r := al_loop trainer model dm steps w in
  exists evs,
    log (final r) = log w ++ evs /\
    (signals evs = replicate (length (signals evs)) true \/
     (signals evs = replicate (length (signals evs) - 1) true ++ [false] /\
      outcome r = inr tt /\ last evs = Some (EvStep false))).
Proof.
  cbn zeta. revert w. induction steps as [|s steps IH]; intros w.
  - exists []. rewrite app_nil_r. split; [reflexivity|]. left. reflexivity.
  - destruct (iteration_events trainer model dm s w) as (start & evs & Hl & _ & Hout).
    cbn zeta in *. cbn [al_loop]. rewrite run_bind.
    destruct (outcome (iteration trainer model dm s w)) as [e|[]]; cbn [outcome final].
    + eexists. split; [exact Hl|]. left. rewrite signals_head, Hout. reflexivity.
    + destruct Hout as [Hs _].
      destruct (IH (final (iteration trainer model dm s w))) as (evs' & Hl' & H).
      eexists. rewrite Hl', Hl, <- app_assoc. split; [reflexivity|].
      cbn [app]. rewrite signals_head, signals_app, Hs. cbn [app length].
      destruct H as [H|(H & Ho & Hlast)].
      * left. rewrite H at 1. reflexivity.
      * right. split; [|split; [exact Ho|]].
        -- assert (Hn : length (signals evs') = S (length (signals evs') - 1)).
           { rewrite H at 1. rewrite length_app, length_replicate. cbn [length]. lia. }
           replace (S (length (signals evs')) - 1)%nat
             with (S (length (signals evs') - 1)) by lia.
           cbn [replicate app]. rewrite <- H. reflexivity.
        -- rewrite !last_cons, last_app, Hlast. reflexivity.
    + destruct Hout as [Hs Hlast]. eexists. split; [exact Hl|]. right.
      rewrite signals_head, Hs. cbn. split; [reflexivity|]. split; [reflexivity|].
      rewrite !last_cons, Hlast. reflexivity.
Qed.

(** X7: the [break] of the loop: in every run of the loop, all the values
    [trainer.step] returned are [True] except possibly the last; when a
    [False] was returned, it was the last thing the loop did (no training,
    test or step follows it) and the loop ended without an exception. *)
Theorem loop_stops_at_first_false trainer model dm steps (w : World) :
  let r := al_loop trainer model dm steps w in
  let sig := signals (new_events w r) in
  sig = replicate (length sig) true \/
  (sig = replicate (length sig - 1) true ++ [false] /\
   outcome r = inr tt /\
   last (log (final r)) = Some (EvStep false)).
Proof.
  cbn zeta. destruct (al_loop_signals trainer model dm steps w) as (evs & Hl & H).
  cbn zeta in *. unfold new_events. rewrite Hl, drop_app_length.
  destruct H as [H|(H & Ho & Hlast)]; [left; exact H|].
  right. split; [exact H|]. split; [exact Ho|]. rewrite last_app, Hlast. reflexivity.
Qed.

Lemma al_loop_prints trainer model dm steps w :
  exists evs,
    log (final (al_loop trainer model dm steps w)) = log w ++ evs /\
    map snd (printed evs) = map length (train_sets evs) /\
    map fst (printed evs) `prefix_of` steps.
Proof.
  revert w. induction steps as [|s steps IH]; intros w.
  - exists []. rewrite app_nil_r. repeat split. reflexivity.
  - destruct (iteration_events trainer model dm s w) as (start & evs & Hl & Hph & _).
    cbn zeta in *. destruct (later_phases_unprinted evs Hph) as [Hp Ht].
    assert (Hhead : forall evs',
      map snd (printed evs') = map length (train_sets evs') ->
      map fst (printed evs') `prefix_of` steps ->
      map snd (printed (EvPrint s (n_labelled (active_dataset w))
                 :: EvTrainStart start (labelled_items (active_dataset w)) :: evs ++ evs'))
      = map length (train_sets (EvPrint s (n_labelled (active_dataset w))
                 :: EvTrainStart start (labelled_items (active_dataset w)) :: evs ++ evs')) /\
      map fst (printed (EvPrint s (n_labelled (active_dataset w))
                 :: EvTrainStart start (labelled_items (active_dataset w)) :: evs ++ evs'))
      `prefix_of` s :: steps).
    { intros evs' H1 H2.
      change (printed (EvPrint s (n_labelled (active_dataset w))
                 :: EvTrainStart start (labelled_items (active_dataset w)) :: evs ++ evs'))
        with ((s, n_labelled (active_dataset w)) :: printed (evs ++ evs')).
      change (train_sets (EvPrint s (n_labelled (active_dataset w))
                 :: EvTrainStart start (labelled_items (active_dataset w)) :: evs ++ evs'))
        with (labelled_items (active_dataset w) :: train_sets (evs ++ evs')).
      unfold train_sets at 1. rewrite printed_app, omap_app. fold (train_sets evs).
      fold (train_sets evs'). rewrite Hp, Ht. cbn [app map fst snd].
      split; [rewrite H1; reflexivity|]. apply prefix_cons. exact H2. }
    cbn [al_loop]. rewrite run_bind.
    destruct (outcome (iteration trainer model dm s w)) as [e|[]]; cbn [final].
    + exists (EvPrint s (n_labelled (active_dataset w))
                :: EvTrainStart start (labelled_items (active_dataset w)) :: evs ++ []).
      split; [rewrite app_nil_r; exact Hl|].
      apply Hhead; [reflexivity|apply prefix_nil].
    + destruct (IH (final (iteration trainer model dm s w))) as (evs' & Hl' & H1 & H2).
      eexists. rewrite Hl', Hl, <- app_assoc. cbn [app]. split; [reflexivity|].
      apply Hhead; assumption.
    + exists (EvPrint s (n_labelled (active_dataset w))
                :: EvTrainStart start (labelled_items (active_dataset w)) :: evs ++ []).
      split; [rewrite app_nil_r; exact Hl|].
      apply Hhead; [reflexivity|apply prefix_nil].
Qed.

(** X8: what the loop prints: the [al_step] values printed are the first
    values of the range, in order, and the dataset size printed at a step is
    the number of items the training of that step runs on; this holds in
    every run, also one that an exception ends. *)
Theorem print_shows_training_set trainer model dm steps (w : World) :
  let evs := new_events w (al_loop trainer model dm steps w) in
  map snd (printed evs) = map length (train_sets evs) /\
  map fst (printed evs) `prefix_of` steps.
Proof.
  cbn zeta. destruct (al_loop_prints trainer model dm steps w) as (evs & Hl & H).
  unfold new_events. rewrite Hl, drop_app_length. exact H.
Qed.

(** ** The number of steps, in closed form *)

Lemma go_on_iff (k : Z) (p : nat) :
  (0 < k)%Z -> (k <=? Z.of_nat p)%Z = (Z.to_nat k <=? p)%nat.
Proof.
  intros Hk. destruct (Z.leb_spec k (Z.of_nat p)); destruct (Nat.leb_spec (Z.to_nat k) p);
    try reflexivity; lia.
Qed.

Lemma trajectory_count (k : Z) steps l p :
  (0 < k)%Z ->
  length (trajectory k steps l p) = Nat.min (length steps) (p / Z.to_nat k + 1).
Proof.
  intros Hk. assert (Hkn : (0 < Z.to_nat k)%nat) by lia.
  revert l p. induction steps as [|s steps IH]; intros l p; [reflexivity|].
  cbn [trajectory length]. rewrite (go_on_iff k p Hk).
  destruct (Nat.leb_spec (Z.to_nat k) p) as [Hle|Hlt].
  - replace (Nat.min (Z.to_nat k) p) with (Z.to_nat k) by lia.
    cbn [length]. rewrite IH.
    replace (p / Z.to_nat k)%nat with ((p - Z.to_nat k) / Z.to_nat k + 1)%nat; [lia|].
    rewrite <- (Nat.div_add _ 1 (Z.to_nat k)) by lia.
    f_equal. lia.
  - rewrite (Nat.div_small p (Z.to_nat k)) by exact Hlt. cbn [length]. lia.
Qed.

Lemma final_sizes_closed (k : Z) steps l p :
  (0 < k)%Z ->
  final_sizes k steps l p =
  ((l + Nat.min p (length steps * Z.to_nat k))%nat,
   (p - Nat.min p (length steps * Z.to_nat k))%nat).
Proof.
  intros Hk. assert (Hkn : (0 < Z.to_nat k)%nat) by lia.
  revert l p. induction steps as [|s steps IH]; intros l p.
  - cbn. f_equal; lia.
  - cbn [final_sizes length]. rewrite (go_on_iff k p Hk), Nat.mul_succ_l.
    set (t := (length steps * Z.to_nat k)%nat) in *.
    destruct (Nat.leb_spec (Z.to_nat k) p) as [Hle|Hlt].
    + rewrite IH. fold t. f_equal; lia.
    + f_equal; lia.
Qed.

(** X9: how long the notebook runs, by the size [n >= 10] of the training
    set: on services that never raise it makes [min(100, (n - 10) / 100 + 1)]
    steps and ends with [10 + min(n - 10, 100 * 100)] labelled items and the
    other items in the pool, which is thus empty at the end exactly for the
    sets of at most 10010 items. *)
Theorem notebook_steps_closed_form (r : nat -> nat) :
  never_fails X ->
  (10 <= cifar10_train_len X)%nat ->
  let n := cifar10_train_len X in
  let res := notebook (startup r) in
  length (signals (log (final res))) = Nat.min 100 ((n - 10) / 100 + 1) /\
  n_labelled (active_dataset (final res)) = (10 + Nat.min (n - 10) (100 * 100))%nat /\
  n_unlabelled (active_dataset (final res)) = (n - 10 - Nat.min (n - 10) (100 * 100))%nat.
Proof.
  intros Hnf Hn. cbn zeta.
  destruct (notebook_sizes r Hnf Hn) as (_ & _ & _ & Hs & Hfs). cbn zeta in *.
  rewrite Hs, length_map, trajectory_count by lia.
  rewrite final_sizes_closed in Hfs by lia.
  rewrite length_seq in *.
  change (Z.to_nat 100) with 100%nat in *. change AL_STEPS with 100%nat in *.
  injection Hfs as H1 H2. repeat split; assumption.
Qed.
End Model.


Arguments mkResult {X A}.
Arguments outcome {X A}.
Arguments final {X A}.
Arguments visited {X A}.
Arguments small_world X n : clear implicits.
Arguments trainer3 X : clear implicits.


(** * Runs on concrete services *)

Lemma toy_never_fails n : never_fails (toy n).
Proof. repeat split; intros; eexists; reflexivity. Defined.

(** The notebook over 120 items: two steps, the second on a pool of ten;
    both trainings start from the initial weights although the first has
    moved them. *)
Example notebook_120 :
  let res := @notebook (toy 120) (startup r0) in
  outcome res = inr tt /\
  printed (log (final res)) = [(0, 10); (1, 110)]%nat /\
  signals (log (final res)) = [true; false] /\
  train_starts (log (final res)) = [[0; 0]; [0; 0]]%Z /\
  heap (final res) = [1; 1; 0; 0]%Z /\
  n_unlabelled (active_dataset (final res)) = 0%nat.
Proof. vm_compute. repeat split. Qed.

(** A training that fails in the second iteration: the loop raises its
    exception, and the second iteration has logged its print and its
    training only. *)
Example training_failure_aborts :
  let X := toy_nan 0 20 in
  let w := small_world X 7 in
  let w' := final (iteration (trainer3 X) model0 dm0 0 w) in
  phase_failure (trainer3 X) model0 w' (RuntimeError "loss is nan") 1 /\
  outcome (al_loop (trainer3 X) model0 dm0 [0; 1; 2]%nat w)
  = inl (RuntimeError "loss is nan") /\
  map phase (log (final (al_loop (trainer3 X) model0 dm0 [0; 1; 2]%nat w)))
  = [0; 1; 2; 3; 4; 5; 0; 1]%nat /\
  n_labelled (active_dataset (final (al_loop (trainer3 X) model0 dm0 [0; 1; 2]%nat w)))
  = 3%nat.
Proof.
  intros X w w'. split; [apply training_fails; vm_compute; reflexivity|].
  vm_compute. repeat split.
Qed.

Lemma al_loop_terminates_witness :
  never_fails (toy 0) /\
  heuristic (trainer3 (toy 0)) = BALD /\
  outcome (al_loop (trainer3 (toy 0)) model0 dm0 (seq 0 AL_STEPS) (small_world (toy 0) 7))
  = inr tt.
Proof.
  split; [apply toy_never_fails|]. split; [reflexivity|].
  apply (al_loop_terminates (trainer3 (toy 0)) model0 dm0 (small_world (toy 0) 7)
           (toy_never_fails 0) eq_refl).
Defined.

Lemma step_labels_min_k_pool_witness :
  heuristic (trainer3 (toy 0)) = BALD /\
  (0 <= ndata_to_label (trainer3 (toy 0)))%Z /\
  outcome (iteration (trainer3 (toy 0)) model0 dm0 0 (small_world (toy 0) 7)) = inr true /\
  Z.of_nat (n_labelled (active_dataset
     (final (iteration (trainer3 (toy 0)) model0 dm0 0 (small_world (toy 0) 7))))) = 3%Z.
Proof.
  assert (H1 : heuristic (trainer3 (toy 0)) = BALD) by reflexivity.
  assert (H2 : (0 <= ndata_to_label (trainer3 (toy 0)))%Z) by (simpl; lia).
  assert (H3 : outcome (iteration (trainer3 (toy 0)) model0 dm0 0 (small_world (toy 0) 7))
               = inr true) by (vm_compute; reflexivity).
  split; [exact H1|]. split; [exact H2|]. split; [exact H3|].
  exact (proj1 (step_labels_min_k_pool (trainer3 (toy 0)) model0 dm0 0%nat
                  (small_world (toy 0) 7) true H1 H2 H3)).
Defined.

Lemma end_to_end_1000_witness :
  never_fails (toy 1000) /\
  cifar10_train_len (toy 1000) = 1000%nat /\
  n_unlabelled (active_dataset (final (@notebook (toy 1000) (startup r0)))) = 0%nat.
Proof.
  split; [apply toy_never_fails|]. split; [reflexivity|].
  apply (end_to_end_1000 (X := toy 1000) r0 (toy_never_fails 1000) eq_refl).
Defined.

Lemma failure_aborts_run_witness :
  let X := toy_oom 0 20 in
  let w := small_world X 7 in
  let w' := final (iteration (trainer3 X) model0 dm0 0 w) in
  enters (trainer3 X) model0 dm0 [0; 1; 2]%nat w 1%nat w' /\
  phase_failure (trainer3 X) model0 w' (RuntimeError "CUDA out of memory") 3 /\
  outcome (al_loop (trainer3 X) model0 dm0 [0; 1; 2]%nat w)
  = inl (RuntimeError "CUDA out of memory").
Proof.
  intros X w w'.
  assert (H1 : enters (trainer3 X) model0 dm0 [0; 1; 2]%nat w 1%nat w').
  { apply enters_next; [vm_compute; reflexivity|apply enters_first]. }
  assert (H2 : phase_failure (trainer3 X) model0 w' (RuntimeError "CUDA out of memory") 3).
  { apply prediction_fails; vm_compute; reflexivity. }
  split; [exact H1|]. split; [exact H2|].
  exact (proj1 (proj2 (failure_aborts_run _ _ _ _ _ _ _ _ _ H1 H2))).
Defined.


(** C6, as stated, fails on the record the notebook creates: no field of
    [HParams()] beyond the five listed holds the budget of the loop. *)
Lemma step_budget_not_a_field :
  ~ exists name, holds_step_budget HParams_default name.
Proof.
  intros (name & Hn & Hg). unfold asdict in Hg. cbn [getattr HParams_default batch_size
    data_root num_classes learning_rate query_size iterations replicate_in_memory gpus] in Hg.
  change (Z.of_nat AL_STEPS) with 100%Z in Hg.
  repeat match type of Hg with
         | context [String.eqb ?a name] => destruct (String.eqb_spec a name)
         end; try discriminate.
  subst name. apply Hn. unfold listed_beside_budget. set_solver.
Qed.

(** A module with two parameters in a heap of three tensors. *)
Lemma deepcopy_independent_witness :
  let model := {| m_hparams := []; m_params := [0; 2]%nat |} in
  let w := set_heap (X := toy 0) [5; 6; 7]%Z (small_world (toy 0) 0) in
  Forall (fun l => (l < length (heap w))%nat) (m_params model) /\
  exists snapshot,
    outcome ((sd ← state_dict model; deepcopy sd) w) = inr snapshot /\
    read_all snapshot
      (heap (final (store_all (X := toy 0) (m_params model) [8; 9]%Z
                      (final ((sd ← state_dict model; deepcopy sd) w)))))
    = [5; 7]%Z.
Proof.
  cbn zeta.
  match goal with |- ?H /\ _ => assert (Hv : H) by (repeat constructor; simpl; lia) end.
  split; [exact Hv|].
  destruct (deepcopy_independent (X := toy 0) _ _ [8; 9]%Z Hv)
    as (snapshot & Ho & _ & _ & _ & Hs).
  exists snapshot. split; [exact Ho|exact Hs].
Defined.

Lemma reset_without_copy_keeps_weights_witness :
  let model := {| m_hparams := []; m_params := [0; 2]%nat |} in
  let trainer := {| heuristic := BALD; ndata_to_label := 3%Z; max_epochs := 10%Z;
                    default_root_dir := "/tmp"; t_gpus := 1%Z;
                    callbacks := [ResetCallback [0; 2]%nat] |} in
  let w := set_heap (X := toy 0) [5; 6; 7]%Z (small_world (toy 0) 4) in
  callbacks trainer = [ResetCallback (m_params model)] /\
  train_starts (log (final (fit trainer model dm0 (final (fit trainer model dm0 w)))))
  = [[5; 7]; [6; 8]]%Z.
Proof.
  intros model trainer w. split; [reflexivity|].
  rewrite (reset_without_copy_keeps_weights (X := toy 0) trainer model dm0
             (final (fit trainer model dm0 w)) eq_refl).
  vm_compute. reflexivity.
Defined.

Lemma notebook_steps_closed_form_witness :
  never_fails (toy 1000) /\
  (10 <= cifar10_train_len (toy 1000))%nat /\
  length (signals (log (final (@notebook (toy 1000) (startup r0)))))
  = Nat.min 100 ((1000 - 10) / 100 + 1).
Proof.
  split; [apply toy_never_fails|].
  assert (H : (10 <= cifar10_train_len (toy 1000))%nat) by (simpl; lia).
  split; [exact H|].
  exact (proj1 (notebook_steps_closed_form (X := toy 1000) r0 (toy_never_fails 1000) H)).
Defined.
